(** * The host main loop of the emulator (main-loop.c)

    A shallow embedding of [main-loop.c]: the signal bridge, the glib
    event-source fusion, the two platform variants of the blocking wait,
    the polling-callback list, the wait-object table and the public
    per-iteration driver, followed by the properties of the design
    document that concern them.

    Conventions.  Pointers, handles and C integers are [Z]; the null
    pointer is [0].  A C array is a [list] read with [!!!] and written
    with [<[ i := v ]>]; bounds are the caller's business in C and are
    carried here by explicit well-formedness predicates.  Every call
    that leaves the file (glib, the OS, the collaborators) appends one
    entry to a log, stamped with the state of the iothread lock. *)

From Stdlib Require Import ZArith Lia String.
From stdpp Require Import base list.

Local Open Scope Z_scope.

(** ** C integer types *)

Definition UINT32_MAX : Z := 4294967295.
Definition INT32_MAX : Z := 2147483647.
Definition INT32_MIN : Z := -2147483648.

(** Conversion to [uint32_t]: reduction modulo 2^32. *)
Definition to_uint32 (x : Z) : Z := x mod 4294967296.

(** Conversion to [int] (two's complement, as every supported host does). *)
Definition to_int32 (x : Z) : Z :=
  let y := x mod 4294967296 in
  if y <? 2147483648 then y else y - 4294967296.

(** Conversion to [size_t], the unsigned type of [sizeof]: reduction
    modulo 2^64 on an LP64 host (modulo 2^32 on an ILP32 one, with the
    same answer to every comparison made in this file). *)
Definition to_size_t (x : Z) : Z := x mod 18446744073709551616.

Definition is_uint32 (x : Z) : Prop := 0 <= x <= UINT32_MAX.
Definition is_int32 (x : Z) : Prop := INT32_MIN <= x <= INT32_MAX.

(** ** Polling callbacks (alternate platform)

    [first_polling_entry] heads a singly linked list of heap nodes; the
    list of the nodes' payloads, in link order, is its model. *)

Record PollingEntry := mkPollingEntry {
  pe_func : Z;
  pe_opaque : Z
}.

#[global] Instance PollingEntry_eq_dec : EqDecision PollingEntry.
Proof. solve_decision. Defined.

(** [qemu_add_polling_cb]: walk to the last link, hang the new node there. *)
Definition qemu_add_polling_cb (func opaque : Z) (first_polling_entry : list PollingEntry)
  : Z * list PollingEntry :=
  (0, first_polling_entry ++ [mkPollingEntry func opaque]).

(** [qemu_del_polling_cb]: unlink the first node whose two fields both match. *)
Fixpoint qemu_del_polling_cb (func opaque : Z) (first_polling_entry : list PollingEntry)
  : list PollingEntry :=
  match first_polling_entry with
  | [] => []
  | pe :: next =>
      if (pe_func pe =? func) && (pe_opaque pe =? opaque) then next
      else pe :: qemu_del_polling_cb func opaque next
  end.

(** ** Wait objects (alternate platform) *)

(** Modelled from the spec: the platform constant [MAXIMUM_WAIT_OBJECTS]
    comes from the host's system headers; the design document gives the
    bound as 64 entries. *)
Definition MAXIMUM_WAIT_OBJECTS : Z := 64.

Record WaitObjects := mkWaitObjects {
  num : Z;
  revents : list Z;
  events : list Z;
  func : list Z;
  opaque : list Z
}.

(** [static WaitObjects wait_objects = {0};] *)
Definition wait_objects_init : WaitObjects :=
  let zeros := replicate (Z.to_nat (MAXIMUM_WAIT_OBJECTS + 1)) 0 in
  mkWaitObjects 0 zeros zeros zeros zeros.

(** The four arrays have [MAXIMUM_WAIT_OBJECTS + 1] cells and the count
    stays within the capacity. *)
Definition wait_objects_wf (w : WaitObjects) : Prop :=
  0 <= num w <= MAXIMUM_WAIT_OBJECTS /\
  length (revents w) = Z.to_nat (MAXIMUM_WAIT_OBJECTS + 1) /\
  length (events w) = Z.to_nat (MAXIMUM_WAIT_OBJECTS + 1) /\
  length (func w) = Z.to_nat (MAXIMUM_WAIT_OBJECTS + 1) /\
  length (opaque w) = Z.to_nat (MAXIMUM_WAIT_OBJECTS + 1).

Definition qemu_add_wait_object (handle func_ opaque_ : Z) (w : WaitObjects)
  : Z * WaitObjects :=
  if num w >=? MAXIMUM_WAIT_OBJECTS then (-1, w)
  else
    let n := Z.to_nat (num w) in
    (0, {| num := num w + 1;
           revents := <[n := 0]> (revents w);
           events := <[n := handle]> (events w);
           func := <[n := func_]> (func w);
           opaque := <[n := opaque_]> (opaque w) |}).

(** [a[i] = a[i + 1];] *)
Definition array_shift (a : list Z) (i : nat) : list Z := <[i := a !!! S i]> a.

(** Body of the shifting branch: cell [i] of each array takes cell [i + 1]. *)
Definition wait_objects_shift (w : WaitObjects) (i : nat) : WaitObjects :=
  {| num := num w;
     revents := array_shift (revents w) i;
     events := array_shift (events w) i;
     func := array_shift (func w) i;
     opaque := array_shift (opaque w) i |}.

(** One turn of the [for] loop of [qemu_del_wait_object]. *)
Definition del_wait_object_step (handle : Z) (st : bool * WaitObjects) (i : nat)
  : bool * WaitObjects :=
  let found := fst st || (events (snd st) !!! i =? handle) in
  (found, if found then wait_objects_shift (snd st) i else snd st).

Definition qemu_del_wait_object (handle func_ opaque_ : Z) (w : WaitObjects)
  : WaitObjects :=
  let st := fold_left (del_wait_object_step handle)
                      (seq 0 (Z.to_nat (num w))) (false, w) in
  if fst st
  then {| num := num (snd st) - 1; revents := revents (snd st);
          events := events (snd st); func := func (snd st);
          opaque := opaque (snd st) |}
  else snd st.

(** The live part of the table: the first [num] cells of the four arrays. *)
Record WaitEntry := mkWaitEntry {
  we_handle : Z;
  we_func : Z;
  we_opaque : Z;
  we_revents : Z
}.

#[global] Instance WaitEntry_eq_dec : EqDecision WaitEntry.
Proof. solve_decision. Defined.

Definition wait_objects_cell (w : WaitObjects) (i : nat) : WaitEntry :=
  mkWaitEntry (events w !!! i) (func w !!! i) (opaque w !!! i) (revents w !!! i).

Definition wait_objects_entries (w : WaitObjects) : list WaitEntry :=
  wait_objects_cell w <$> seq 0 (Z.to_nat (num w)).

(** Removal of the first entry carrying a given handle, on the list view. *)
Fixpoint remove_first_handle (handle : Z) (l : list WaitEntry) : list WaitEntry :=
  match l with
  | [] => []
  | e :: l' => if we_handle e =? handle then l' else e :: remove_first_handle handle l'
  end.

Fixpoint find_first_handle (handle : Z) (l : list WaitEntry) : option WaitEntry :=
  match l with
  | [] => None
  | e :: l' => if we_handle e =? handle then Some e else find_first_handle handle l'
  end.

(** ** Operation sequences on the two registries *)

Inductive PollingOp :=
| PAdd (func opaque : Z)
| PDel (func opaque : Z).

Definition polling_step (l : list PollingEntry) (op : PollingOp) : list PollingEntry :=
  match op with
  | PAdd f o => snd (qemu_add_polling_cb f o l)
  | PDel f o => qemu_del_polling_cb f o l
  end.

Definition polling_run (ops : list PollingOp) (l : list PollingEntry) : list PollingEntry :=
  fold_left polling_step ops l.

(** Every entry handed to [qemu_add_polling_cb], in call order. *)
Definition polling_adds (ops : list PollingOp) : list PollingEntry :=
  omap (fun op => match op with
                  | PAdd f o => Some (mkPollingEntry f o)
                  | PDel _ _ => None
                  end) ops.

(** The entries that the successive [qemu_del_polling_cb] calls unlinked. *)
Fixpoint polling_removed (ops : list PollingOp) (l : list PollingEntry)
  : list PollingEntry :=
  match ops with
  | [] => []
  | op :: ops' =>
      match op with
      | PAdd _ _ => []
      | PDel f o => if decide (mkPollingEntry f o ∈ l) then [mkPollingEntry f o] else []
      end ++ polling_removed ops' (polling_step l op)
  end.

Inductive WaitOp :=
| WAdd (handle func opaque : Z)
| WDel (handle func opaque : Z).

Definition wait_step (w : WaitObjects) (op : WaitOp) : WaitObjects :=
  match op with
  | WAdd h f o => snd (qemu_add_wait_object h f o w)
  | WDel h f o => qemu_del_wait_object h f o w
  end.

Definition wait_run (ops : list WaitOp) (w : WaitObjects) : WaitObjects :=
  fold_left wait_step ops w.

(** Every entry handed to [qemu_add_wait_object], in call order. *)
Definition wait_adds (ops : list WaitOp) : list WaitEntry :=
  omap (fun op => match op with
                  | WAdd h f o => Some (mkWaitEntry h f o 0)
                  | WDel _ _ _ => None
                  end) ops.

(** The entries handed to [qemu_add_wait_object] while the table held
    fewer than [MAXIMUM_WAIT_OBJECTS] entries, in call order. *)
Fixpoint wait_accepted (ops : list WaitOp) (w : WaitObjects) : list WaitEntry :=
  match ops with
  | [] => []
  | op :: ops' =>
      match op with
      | WAdd h f o =>
          if num w <? MAXIMUM_WAIT_OBJECTS then [mkWaitEntry h f o 0] else []
      | WDel _ _ _ => []
      end ++ wait_accepted ops' (wait_step w op)
  end.

(** The entries that the successive [qemu_del_wait_object] calls dropped. *)
Fixpoint wait_removed (ops : list WaitOp) (w : WaitObjects) : list WaitEntry :=
  match ops with
  | [] => []
  | op :: ops' =>
      match op with
      | WAdd _ _ _ => []
      | WDel h _ _ =>
          match find_first_handle h (wait_objects_entries w) with
          | Some e => [e]
          | None => []
          end
      end ++ wait_removed ops' (wait_step w op)
  end.

(** ** The outside world *)

(** Constants of the host's headers: glib's [GIOCondition] bits, the two
    errno values the signal bridge tests, and the [SA_SIGINFO] flag, with
    their Linux values. *)
Definition G_IO_IN : Z := 1.
Definition G_IO_OUT : Z := 4.
Definition G_IO_ERR : Z := 8.
Definition EINTR : Z := 4.
Definition EAGAIN : Z := 11.
Definition SA_SIGINFO : Z := 4.

(** The two dispositions that are not functions: [SIG_DFL] is the null
    pointer, [SIG_IGN] the address 1. *)
Definition SIG_DFL : Z := 0.
Definition SIG_IGN : Z := 1.

(** The number of descriptors an [fd_set] holds. *)
Definition FD_SETSIZE : Z := 1024.

(** [sizeof(struct qemu_signalfd_siginfo)]: the record is padded to 128 bytes. *)
Definition sizeof_info : Z := 128.

(** [ARRAY_SIZE(poll_fds)] for [static GPollFD poll_fds[1024 * 2]]. *)
Definition ARRAY_SIZE_poll_fds : Z := 1024 * 2.

Record GPollFD := mkGPollFD {
  pfd_fd : Z;
  pfd_events : Z;
  pfd_revents : Z
}.

(** The interest bits of a poll record, as both fusion loops test them. *)
Definition wants_in (p : GPollFD) : bool := negb (Z.land (pfd_events p) G_IO_IN =? 0).
Definition wants_out (p : GPollFD) : bool := negb (Z.land (pfd_events p) G_IO_OUT =? 0).
Definition wants_err (p : GPollFD) : bool := negb (Z.land (pfd_events p) G_IO_ERR =? 0).

Record timeval := mkTimeval {
  tv_sec : Z;
  tv_usec : Z
}.

(** An [fd_set] is a bit vector indexed by descriptor.  In C the vector
    has [FD_SETSIZE] bits and [FD_SET] or [FD_ISSET] on a descriptor
    outside [0, FD_SETSIZE) is undefined; the bit vector below is defined
    everywhere, and the properties that run [FD_SET] assume the
    descriptors in range ([fd_in_range]). *)
Definition fd_set := Z.
Definition FD_ZERO : fd_set := 0.
Definition FD_SET (fd : Z) (s : fd_set) : fd_set := Z.lor s (Z.shiftl 1 fd).
Definition FD_ISSET (fd : Z) (s : fd_set) : bool := Z.testbit s fd.

(** The four globals [nfds], [rfds], [wfds], [xfds]. *)
Record FdSets := mkFdSets {
  nfds : Z;
  rfds : fd_set;
  wfds : fd_set;
  xfds : fd_set
}.

(** What one [read] on the signal descriptor delivers. *)
Record ReadResult := mkReadResult {
  rd_len : Z;
  rd_errno : Z;
  ssi_signo : Z
}.

Record sigaction_t := mkSigaction {
  sa_flags : Z;
  sa_sigaction : Z;
  sa_handler : Z
}.

Inductive Event :=
| EvPrintf (fmt : string) (arg : Z)
| EvSigaction (signo : Z)
| EvSaSigaction (fn signo : Z)
| EvSaHandler (fn signo : Z)
| EvAioNotify (ctx : Z)
| EvMutexUnlockIothread
| EvMutexLockIothread
| EvContextPrepare
| EvContextQuery (max_priority : Z)
| EvContextCheck (max_priority n : Z)
| EvContextDispatch
| EvSelect (n : Z) (tvarg : option timeval)
| EvGPoll (n timeout : Z)
| EvPollingFunc (fn opaque : Z)
| EvWaitObjectFunc (fn opaque : Z)
| EvSlirpUpdateTimeout (timeout : Z)
| EvSlirpSelectFill
| EvIohandlerFill
| EvIohandlerPoll (ret : Z)
| EvSlirpSelectPoll (err : bool)
| EvRunAllTimers.

(** A log entry: the call, and whether the iothread lock was held when
    it was made. *)
Definition LogEntry : Type := Event * bool.

Record QueryResult := mkQueryResult {
  q_n : Z;
  q_timeout : Z;
  q_fds : list GPollFD
}.

(** Build configuration: the preprocessor switches that select code in
    the functions modelled here. *)
Record Config := mkConfig {
  WIN32 : bool;
  CONFIG_SLIRP : bool
}.

(** Answers of everything outside the file.  Each may depend on all that
    happened before, i.e. on the log. *)
Record Env := mkEnv {
  env_config : Config;
  env_sigaction : list LogEntry -> Z -> Z * sigaction_t;
  env_prepare : list LogEntry -> Z;
  env_query : list LogEntry -> Z -> QueryResult;
  env_check : list LogEntry -> Z -> list GPollFD -> bool;
  env_select : list LogEntry -> Z -> fd_set * fd_set * fd_set -> option timeval
               -> Z * (fd_set * fd_set * fd_set);
  env_g_poll : list LogEntry -> list GPollFD -> Z -> Z * list Z;
  env_polling_func : list LogEntry -> Z -> Z -> Z;
  env_slirp_update_timeout : list LogEntry -> Z -> Z;
  env_slirp_select_fill : list LogEntry -> FdSets -> FdSets;
  env_iohandler_fill : list LogEntry -> FdSets -> FdSets;
  env_indeterminate : list LogEntry -> Z
}.

(** ** Program state *)

Record World := mkWorld {
  w_log : list LogEntry;
  iothread_locked : bool;
  qemu_aio_context : Z;
  w_fds : FdSets;
  poll_fds : list GPollFD;
  n_poll_fds : Z;
  max_priority : Z;
  first_polling_entry : list PollingEntry;
  wait_objects : WaitObjects;
  sigfd_pending : list ReadResult
}.

Definition set_log (x : list LogEntry) (w : World) : World :=
  mkWorld x (iothread_locked w) (qemu_aio_context w) (w_fds w) (poll_fds w)
          (n_poll_fds w) (max_priority w) (first_polling_entry w) (wait_objects w)
          (sigfd_pending w).
Definition set_iothread_locked (x : bool) (w : World) : World :=
  mkWorld (w_log w) x (qemu_aio_context w) (w_fds w) (poll_fds w)
          (n_poll_fds w) (max_priority w) (first_polling_entry w) (wait_objects w)
          (sigfd_pending w).
Definition set_fds (x : FdSets) (w : World) : World :=
  mkWorld (w_log w) (iothread_locked w) (qemu_aio_context w) x (poll_fds w)
          (n_poll_fds w) (max_priority w) (first_polling_entry w) (wait_objects w)
          (sigfd_pending w).
Definition set_poll_fds (x : list GPollFD) (w : World) : World :=
  mkWorld (w_log w) (iothread_locked w) (qemu_aio_context w) (w_fds w) x
          (n_poll_fds w) (max_priority w) (first_polling_entry w) (wait_objects w)
          (sigfd_pending w).
Definition set_n_poll_fds (x : Z) (w : World) : World :=
  mkWorld (w_log w) (iothread_locked w) (qemu_aio_context w) (w_fds w) (poll_fds w)
          x (max_priority w) (first_polling_entry w) (wait_objects w)
          (sigfd_pending w).
Definition set_max_priority (x : Z) (w : World) : World :=
  mkWorld (w_log w) (iothread_locked w) (qemu_aio_context w) (w_fds w) (poll_fds w)
          (n_poll_fds w) x (first_polling_entry w) (wait_objects w)
          (sigfd_pending w).
Definition set_wait_objects (x : WaitObjects) (w : World) : World :=
  mkWorld (w_log w) (iothread_locked w) (qemu_aio_context w) (w_fds w) (poll_fds w)
          (n_poll_fds w) (max_priority w) (first_polling_entry w) x
          (sigfd_pending w).
Definition set_sigfd_pending (x : list ReadResult) (w : World) : World :=
  mkWorld (w_log w) (iothread_locked w) (qemu_aio_context w) (w_fds w) (poll_fds w)
          (n_poll_fds w) (max_priority w) (first_polling_entry w) (wait_objects w)
          x.

(** ** A state monad with abort *)

Inductive Outcome (A : Type) :=
| Ret (a : A)
| Abort.
Arguments Ret {A} a.
Arguments Abort {A}.

Definition M (A : Type) : Type := World -> Outcome A * World.

#[global] Instance M_ret : MRet M := fun A (a : A) w => (Ret a, w).

#[global] Instance M_bind : MBind M := fun A B (k : A -> M B) (m : M A) w =>
  match m w with
  | (Ret a, w') => k a w'
  | (Abort, w') => (Abort, w')
  end.

Definition get {A} (f : World -> A) : M A := fun w => (Ret (f w), w).
Definition modify (f : World -> World) : M unit := fun w => (Ret tt, f w).
Definition abort {A} : M A := fun w => (Abort, w).

(** Record a call that leaves the file. *)
Definition emit (e : Event) : M unit :=
  modify (fun w => set_log (w_log w ++ [(e, iothread_locked w)]) w).

(** [g_assert]: abort the process when the condition fails. *)
Definition g_assert (b : bool) : M unit := if b then mret tt else abort.

Definition when (b : bool) (m : M unit) : M unit := if b then m else mret tt.

(** ** The program *)

Section Program.

Variable env : Env.

(** *** Calls that leave the file *)

Definition sigaction (signo : Z) : M (Z * sigaction_t) :=
  log ← get w_log;
  emit (EvSigaction signo);;
  let r := env_sigaction env log signo in
  mret (fst r, snd r).

Definition aio_notify (ctx : Z) : M unit := emit (EvAioNotify ctx).

Definition qemu_mutex_unlock_iothread : M unit :=
  emit EvMutexUnlockIothread;;
  modify (set_iothread_locked false).

Definition qemu_mutex_lock_iothread : M unit :=
  emit EvMutexLockIothread;;
  modify (set_iothread_locked true).

(** [g_main_context_prepare(context, &max_priority)] *)
Definition g_main_context_prepare : M unit :=
  log ← get w_log;
  emit EvContextPrepare;;
  modify (set_max_priority (env_prepare env log)).

(** Overwrite the head of an array with [src], keeping its size. *)
Definition array_store {A} (src dst : list A) : list A :=
  take (length dst) (src ++ drop (length src) dst).

(** [g_main_context_query(context, max_priority, &timeout, poll_fds,
    ARRAY_SIZE(poll_fds))]: glib fills the head of [poll_fds] and returns
    the number of records it would need, together with its own timeout. *)
Definition g_main_context_query : M (Z * Z) :=
  log ← get w_log;
  prio ← get max_priority;
  emit (EvContextQuery prio);;
  let q := env_query env log prio in
  modify (fun w => set_poll_fds (array_store (q_fds q) (poll_fds w)) w);;
  mret (to_int32 (q_n q), to_int32 (q_timeout q)).

(** [g_main_context_check(context, max_priority, poll_fds, n_poll_fds)] *)
Definition g_main_context_check : M bool :=
  log ← get w_log;
  prio ← get max_priority;
  n ← get n_poll_fds;
  fds ← get poll_fds;
  emit (EvContextCheck prio n);;
  mret (env_check env log prio (take (Z.to_nat n) fds)).

Definition g_main_context_dispatch : M unit := emit EvContextDispatch.

(** [select(n, &rfds, &wfds, &xfds, tvarg)] on the three global sets. *)
Definition select (n : Z) (tvarg : option timeval) : M Z :=
  log ← get w_log;
  s ← get w_fds;
  emit (EvSelect n tvarg);;
  let r := env_select env log n (rfds s, wfds s, xfds s) tvarg in
  modify (set_fds (mkFdSets (nfds s) (fst (fst (snd r))) (snd (fst (snd r)))
                            (snd (snd r))));;
  mret (to_int32 (fst r)).

(** Write the result masks that [g_poll] reports into the records it was given. *)
Fixpoint store_revents (rs : list Z) (l : list GPollFD) : list GPollFD :=
  match rs, l with
  | r :: rs', p :: l' => mkGPollFD (pfd_fd p) (pfd_events p) r :: store_revents rs' l'
  | _, _ => l
  end.

(** [g_poll(poll_fds, n, timeout)] *)
Definition g_poll (n timeout : Z) : M Z :=
  log ← get w_log;
  fds ← get poll_fds;
  emit (EvGPoll n timeout);;
  let r := env_g_poll env log (take (Z.to_nat n) fds) timeout in
  modify (set_poll_fds (store_revents (take (Z.to_nat n) (snd r)) fds));;
  mret (to_int32 (fst r)).

Definition call_polling_func (pe : PollingEntry) : M Z :=
  log ← get w_log;
  emit (EvPollingFunc (pe_func pe) (pe_opaque pe));;
  mret (to_int32 (env_polling_func env log (pe_func pe) (pe_opaque pe))).

Definition slirp_update_timeout (timeout : Z) : M Z :=
  log ← get w_log;
  emit (EvSlirpUpdateTimeout timeout);;
  mret (to_uint32 (env_slirp_update_timeout env log timeout)).

Definition slirp_select_fill : M unit :=
  log ← get w_log;
  emit EvSlirpSelectFill;;
  modify (fun w => set_fds (env_slirp_select_fill env log (w_fds w)) w).

Definition qemu_iohandler_fill : M unit :=
  log ← get w_log;
  emit EvIohandlerFill;;
  modify (fun w => set_fds (env_iohandler_fill env log (w_fds w)) w).

Definition qemu_iohandler_poll (ret : Z) : M unit := emit (EvIohandlerPoll ret).
Definition slirp_select_poll (err : bool) : M unit := emit (EvSlirpSelectPoll err).
Definition qemu_run_all_timers : M unit := emit EvRunAllTimers.

(** *** Signal bridge *)

(** The [while (1)] loop of [sigfd_handler] over what the descriptor has
    queued; the descriptor is non-blocking, so a [read] on an empty queue
    fails with [EAGAIN].  A retry after [EINTR] re-enters the same read.
    A handler is called through the pointer [sigaction] reports, whatever
    it is as long as it is not null; the call is one log entry, which
    stands for a call that returns only when the pointer is a function,
    that is, not [SIG_IGN] ([handler_callable]). *)
Fixpoint sigfd_drain (pending : list ReadResult) : M unit :=
  match pending with
  | [] => modify (set_sigfd_pending [])
  | r :: rest =>
      modify (set_sigfd_pending rest);;
      if (rd_len r =? -1) && (rd_errno r =? EINTR) then sigfd_drain rest
      else if (rd_len r =? -1) && (rd_errno r =? EAGAIN) then mret tt
      else if negb (rd_len r =? sizeof_info) then
        emit (EvPrintf "read from sigfd returned %zd: %m\n" (rd_len r))
      else
        '(result, action) ← sigaction (ssi_signo r);
        if negb (result =? 0) then
          emit (EvPrintf "sigaction() returned: %i" result)
        else
          (if negb (Z.land (sa_flags action) SA_SIGINFO =? 0)
              && negb (sa_sigaction action =? 0)
           then emit (EvSaSigaction (sa_sigaction action) (ssi_signo r))
           else if negb (sa_handler action =? 0)
                then emit (EvSaHandler (sa_handler action) (ssi_signo r))
                else mret tt);;
          sigfd_drain rest
  end.

Definition sigfd_handler (opaque_ : Z) : M unit :=
  pending ← get sigfd_pending;
  sigfd_drain pending.

(** *** Async context facade *)

Definition qemu_notify_event : M unit :=
  ctx ← get qemu_aio_context;
  if ctx =? 0 then mret tt else aio_notify ctx.

(** *** Event-source fusion *)

(** The timeout update at the end of [glib_select_fill]:
    [if (timeout >= 0 && timeout < *cur_timeout) *cur_timeout = timeout;]
    with [int timeout] and [uint32_t *cur_timeout]. *)
Definition select_fill_timeout (timeout cur_timeout : Z) : Z :=
  if (timeout >=? 0) && (to_uint32 timeout <? cur_timeout)
  then to_uint32 timeout
  else cur_timeout.

(** One turn of the descriptor loop of [glib_select_fill]. *)
Definition select_fill_step (s : FdSets) (p : GPollFD) : FdSets :=
  let s := if negb (Z.land (pfd_events p) G_IO_IN =? 0)
           then mkFdSets (Z.max (nfds s) (pfd_fd p)) (FD_SET (pfd_fd p) (rfds s))
                         (wfds s) (xfds s)
           else s in
  let s := if negb (Z.land (pfd_events p) G_IO_OUT =? 0)
           then mkFdSets (Z.max (nfds s) (pfd_fd p)) (rfds s)
                         (FD_SET (pfd_fd p) (wfds s)) (xfds s)
           else s in
  if negb (Z.land (pfd_events p) G_IO_ERR =? 0)
  then mkFdSets (Z.max (nfds s) (pfd_fd p)) (rfds s) (wfds s)
                (FD_SET (pfd_fd p) (xfds s))
  else s.

(** [glib_select_fill(&max_fd, rfds, wfds, xfds, &cur_timeout)]: the
    pointed-to values come in as arguments and go out as results. *)
Definition glib_select_fill (s : FdSets) (cur_timeout : Z) : M (FdSets * Z) :=
  g_main_context_prepare;;
  '(n, timeout) ← g_main_context_query;
  modify (set_n_poll_fds n);;
  (* [int n_poll_fds] against [size_t]: the count is converted to
     unsigned, so a negative count fails the assertion too. *)
  g_assert (to_size_t n <=? ARRAY_SIZE_poll_fds);;
  fds ← get poll_fds;
  let s := fold_left select_fill_step (take (Z.to_nat n) fds) s in
  mret (s, select_fill_timeout timeout cur_timeout).

(** One turn of the result loop of [glib_select_poll]. *)
Definition select_poll_step (s : FdSets) (p : GPollFD) : GPollFD :=
  let r := pfd_revents p in
  let r := if negb (Z.land (pfd_events p) G_IO_IN =? 0) && FD_ISSET (pfd_fd p) (rfds s)
           then Z.lor r G_IO_IN else r in
  let r := if negb (Z.land (pfd_events p) G_IO_OUT =? 0) && FD_ISSET (pfd_fd p) (wfds s)
           then Z.lor r G_IO_OUT else r in
  let r := if negb (Z.land (pfd_events p) G_IO_ERR =? 0) && FD_ISSET (pfd_fd p) (xfds s)
           then Z.lor r G_IO_ERR else r in
  mkGPollFD (pfd_fd p) (pfd_events p) r.

(** The check-then-dispatch tail shared by both variants. *)
Definition check_and_dispatch : M unit :=
  b ← g_main_context_check;
  when b g_main_context_dispatch.

Definition glib_select_poll (s : FdSets) (err : bool) : M unit :=
  when (negb err)
       (n ← get n_poll_fds;
        modify (fun w => set_poll_fds
                           ((select_poll_step s <$> take (Z.to_nat n) (poll_fds w))
                              ++ drop (Z.to_nat n) (poll_fds w)) w));;
  check_and_dispatch.

(** *** Blocking wait, primary variant *)

(** [tvarg] as [os_host_main_loop_wait] prepares it: no deadline for
    [UINT32_MAX], otherwise seconds and microseconds. *)
Definition timeout_tvarg (timeout : Z) : option timeval :=
  if timeout <? UINT32_MAX
  then Some (mkTimeval (timeout / 1000) ((timeout mod 1000) * 1000))
  else None.

Definition os_host_main_loop_wait_posix (timeout : Z) : M Z :=
  s ← get w_fds;
  '(s, timeout) ← glib_select_fill s timeout;
  modify (set_fds s);;
  let tvarg := timeout_tvarg timeout in
  when (timeout >? 0) qemu_mutex_unlock_iothread;;
  ret ← select (nfds s + 1) tvarg;
  when (timeout >? 0) qemu_mutex_lock_iothread;;
  s ← get w_fds;
  glib_select_poll s (ret <? 0);;
  mret ret.

(** *** Blocking wait, alternate variant *)

#[global] Instance GPollFD_inhabited : Inhabited GPollFD := populate (mkGPollFD 0 0 0).

(** [for (pe = first_polling_entry; pe != NULL; pe = pe->next) ret |= pe->func(pe->opaque);] *)
Fixpoint run_polling_entries (l : list PollingEntry) (ret : Z) : M Z :=
  match l with
  | [] => mret ret
  | pe :: next =>
      r ← call_polling_func pe;
      run_polling_entries next (Z.lor ret r)
  end.

(** The poll records appended for the wait objects, after glib's own [n]. *)
Definition wait_objects_to_poll_fds (w : WaitObjects) (n : Z) (fds : list GPollFD)
  : list GPollFD :=
  fold_left (fun fds i =>
               let k := Z.to_nat (n + Z.of_nat i) in
               <[k := mkGPollFD (events w !!! i) G_IO_IN (pfd_revents (fds !!! k))]> fds)
            (seq 0 (Z.to_nat (num w))) fds.

(** [w->revents[i] = poll_fds[n_poll_fds + i].revents] for every live cell. *)
Definition wait_objects_copy_revents (n : Z) (fds : list GPollFD) (w : WaitObjects)
  : WaitObjects :=
  fold_left (fun w i =>
               {| num := num w;
                  revents := <[i := pfd_revents (fds !!! Z.to_nat (n + Z.of_nat i))]>
                               (revents w);
                  events := events w; func := func w; opaque := opaque w |})
            (seq 0 (Z.to_nat (num w))) w.

Fixpoint for_each {A} (l : list A) (body : A -> M unit) : M unit :=
  match l with
  | [] => mret tt
  | a :: l' => body a;; for_each l' body
  end.

(** [if (w->revents[i] && w->func[i]) w->func[i](w->opaque[i]);] *)
Definition call_wait_object (i : nat) : M unit :=
  w ← get wait_objects;
  when (negb (revents w !!! i =? 0) && negb (func w !!! i =? 0))
       (emit (EvWaitObjectFunc (func w !!! i) (opaque w !!! i))).

(** The timeout choice before [g_poll]:
    [if (poll_timeout < 0 || timeout < poll_timeout) poll_timeout = timeout;]
    with [gint poll_timeout] and [uint32_t timeout]. *)
Definition g_poll_timeout (poll_timeout timeout : Z) : Z :=
  if (poll_timeout <? 0) || (timeout <? to_uint32 poll_timeout)
  then to_int32 timeout
  else poll_timeout.

(** [static struct timeval tv0;] *)
Definition tv0 : timeval := mkTimeval 0 0.

Definition os_host_main_loop_wait_win32 (timeout : Z) : M Z :=
  pes ← get first_polling_entry;
  ret ← run_polling_entries pes 0;
  if negb (ret =? 0) then mret ret
  else
    g_main_context_prepare;;
    '(n, poll_timeout) ← g_main_context_query;
    modify (set_n_poll_fds n);;
    g_assert (to_size_t n <=? ARRAY_SIZE_poll_fds);;
    w ← get wait_objects;
    (* [poll_fds[n_poll_fds + i]] for [i < w->num]: cells of [poll_fds]
       only when [n_poll_fds + w->num] is within its size, which the
       source does not test ([win32_query_ok]). *)
    modify (fun st => set_poll_fds (wait_objects_to_poll_fds w n (poll_fds st)) st);;
    let poll_timeout := g_poll_timeout poll_timeout timeout in
    qemu_mutex_unlock_iothread;;
    g_poll_ret ← g_poll (n + num w) poll_timeout;
    qemu_mutex_lock_iothread;;
    when (g_poll_ret >? 0)
         (modify (fun st => set_wait_objects
                              (wait_objects_copy_revents n (poll_fds st) (wait_objects st))
                              st);;
          for_each (seq 0 (Z.to_nat (num w))) call_wait_object);;
    check_and_dispatch;;
    s ← get w_fds;
    (* [select_ret] is declared without initialiser and only assigned
       under [nfds >= 0]. *)
    select_ret ← (if nfds s >=? 0 then select (nfds s + 1) (Some tv0)
                  else log ← get w_log; mret (to_int32 (env_indeterminate env log)));
    (* [timeout = 0;] on the by-value parameter, last statement before
       the return. *)
    let timeout := if (nfds s >=? 0) && negb (select_ret =? 0) then 0 else timeout in
    mret (if negb (select_ret =? 0) || negb (g_poll_ret =? 0) then 1 else 0).

Definition os_host_main_loop_wait (timeout : Z) : M Z :=
  if WIN32 (env_config env)
  then os_host_main_loop_wait_win32 timeout
  else os_host_main_loop_wait_posix timeout.

(** *** Main-loop driver *)

Definition main_loop_wait (nonblocking : Z) : M Z :=
  let timeout := if negb (nonblocking =? 0) then 0 else UINT32_MAX in
  modify (set_fds (mkFdSets (-1) FD_ZERO FD_ZERO FD_ZERO));;
  timeout ← (if CONFIG_SLIRP (env_config env)
             then t ← slirp_update_timeout timeout; slirp_select_fill;; mret t
             else mret timeout);
  qemu_iohandler_fill;;
  ret ← os_host_main_loop_wait timeout;
  qemu_iohandler_poll ret;;
  when (CONFIG_SLIRP (env_config env)) (slirp_select_poll (ret <? 0));;
  qemu_run_all_timers;;
  mret ret.

End Program.

(** The events a run appended to the log. *)
Definition new_events (w w' : World) : list LogEntry :=
  drop (length (w_log w)) (w_log w').

(** The state at process start: statics zeroed, the lock held by the
    loop thread, nothing queued on the signal descriptor. *)
Definition world_init : World :=
  mkWorld [] true 0 (mkFdSets 0 0 0 0)
          (replicate (Z.to_nat ARRAY_SIZE_poll_fds) (mkGPollFD 0 0 0))
          0 0 [] wait_objects_init [].

(** ** Reasoning about runs *)

(** The run of [m] from [w] returns and its result and final state
    satisfy [Q] (a run that aborts satisfies nothing). *)
Definition wp {A} (m : M A) (Q : A -> World -> Prop) (w : World) : Prop :=
  match m w with
  | (Ret a, w') => Q a w'
  | (Abort, _) => False
  end.

(** What glib answers to the query issued from state [w]. *)
Definition query_at (env : Env) (w : World) : QueryResult :=
  env_query env (w_log w ++ [(EvContextPrepare, iothread_locked w)])
            (env_prepare env (w_log w)).

(** The descriptor of a record the fill loop hands to [FD_SET] is an
    index of an [fd_set]. *)
Definition fd_in_range (p : GPollFD) : bool :=
  negb (wants_in p || wants_out p || wants_err p)
  || ((0 <=? pfd_fd p) && (pfd_fd p <? FD_SETSIZE)).

(** glib's answer [q] is one the primary variant can take in state [w]:
    [poll_fds] has its [ARRAY_SIZE] cells, the count is between 0 and
    that size, glib wrote as many records as it counted, and every
    descriptor it asks to watch fits an [fd_set]. *)
Definition posix_query_ok (q : QueryResult) (w : World) : bool :=
  let n := to_int32 (q_n q) in
  (Z.of_nat (length (poll_fds w)) =? ARRAY_SIZE_poll_fds)
  && (0 <=? n) && (n <=? ARRAY_SIZE_poll_fds)
  && (Z.of_nat (length (q_fds q)) =? n)
  && forallb fd_in_range (q_fds q).

(** glib's answer [q] is one the alternate variant can take in state
    [w]: the wait-object table is well formed, [poll_fds] has its
    [ARRAY_SIZE] cells, the count is not negative and leaves room in
    [poll_fds] for one record per wait object. *)
Definition win32_query_ok (q : QueryResult) (w : World) : Prop :=
  let n := to_int32 (q_n q) in
  wait_objects_wf (wait_objects w) /\
  Z.of_nat (length (poll_fds w)) = ARRAY_SIZE_poll_fds /\
  0 <= n /\ n + num (wait_objects w) <= ARRAY_SIZE_poll_fds.

(** Whatever glib is asked, and whenever, its answer is one the variant
    in use can take in state [w]. *)
Definition env_query_bounded (env : Env) (w : World) : Prop :=
  forall log prio,
    if WIN32 (env_config env)
    then win32_query_ok (env_query env log prio) w
    else posix_query_ok (env_query env log prio) w = true.

(** A complete record, and a read that was interrupted. *)
Definition is_full_record (r : ReadResult) : bool := rd_len r =? sizeof_info.
Definition is_interrupted (r : ReadResult) : bool :=
  (rd_len r =? -1) && (rd_errno r =? EINTR).

(** The handler invocation [sigfd_handler] picks for a signal: the
    extended form when registered with [SA_SIGINFO], else the basic form,
    else none. *)
Definition handler_call (act : sigaction_t) (signo : Z) : list Event :=
  if negb (Z.land (sa_flags act) SA_SIGINFO =? 0) && negb (sa_sigaction act =? 0)
  then [EvSaSigaction (sa_sigaction act) signo]
  else if negb (sa_handler act =? 0)
       then [EvSaHandler (sa_handler act) signo]
       else [].

(** The pointer that invocation calls (null when it calls nothing).
    Calling it is a call of a function unless it is [SIG_IGN]; the
    signal is handled by a function of the program when it is neither
    [SIG_DFL] nor [SIG_IGN]. *)
Definition handler_pointer (act : sigaction_t) : Z :=
  if negb (Z.land (sa_flags act) SA_SIGINFO =? 0) && negb (sa_sigaction act =? 0)
  then sa_sigaction act
  else sa_handler act.

Definition handler_callable (act : sigaction_t) : bool :=
  negb (handler_pointer act =? SIG_IGN).

Definition handler_installed (act : sigaction_t) : bool :=
  negb (handler_pointer act =? SIG_DFL) && negb (handler_pointer act =? SIG_IGN).

(** What draining the reads [l] logs when each of them is an interrupted
    read or a complete record whose handler is queried with success and
    can be called; [None] when one of them is anything else.  [log] is
    the log when the first read is made. *)
Fixpoint sigfd_dispatched (env : Env) (log : list LogEntry) (held : bool)
         (l : list ReadResult) : option (list LogEntry) :=
  match l with
  | [] => Some []
  | r :: rest =>
      if is_interrupted r then sigfd_dispatched env log held rest
      else if is_full_record r
                && (fst (env_sigaction env log (ssi_signo r)) =? 0)
                && handler_callable (snd (env_sigaction env log (ssi_signo r)))
      then
        let evs := (EvSigaction (ssi_signo r), held)
                   :: ((fun e => (e, held))
                         <$> handler_call (snd (env_sigaction env log (ssi_signo r)))
                                          (ssi_signo r)) in
        option_map (app evs) (sigfd_dispatched env (log ++ evs) held rest)
      else None
  end.

(** A read that makes [sigfd_handler] give up: neither interrupted, nor
    [EAGAIN], and either of the wrong length or a complete record whose
    handler query fails.  [log] is the log when the read is made. *)
Definition is_bad_read (env : Env) (log : list LogEntry) (r : ReadResult) : bool :=
  negb ((rd_len r =? -1) && (rd_errno r =? EINTR))
  && negb ((rd_len r =? -1) && (rd_errno r =? EAGAIN))
  && (negb (rd_len r =? sizeof_info)
      || negb (fst (env_sigaction env log (ssi_signo r)) =? 0)).

(** The diagnostic [sigfd_handler] prints for such a read, preceded by
    the handler query when the record was complete. *)
Definition bad_read_trace (env : Env) (log : list LogEntry) (held : bool)
           (r : ReadResult) : list LogEntry :=
  if negb (rd_len r =? sizeof_info)
  then [(EvPrintf "read from sigfd returned %zd: %m\n" (rd_len r), held)]
  else [(EvSigaction (ssi_signo r), held);
        (EvPrintf "sigaction() returned: %i"
                  (fst (env_sigaction env log (ssi_signo r))), held)].

(** The handler invocations of a log. *)
Definition handler_calls (log : list LogEntry) : list Event :=
  omap (fun e => match e.1 with
                 | EvSaSigaction _ _ | EvSaHandler _ _ => Some e.1
                 | _ => None
                 end) log.




(** The timeouts of the [g_poll] calls of a log, and the [tvarg]s of its
    [select] calls. *)
Definition g_poll_timeouts (log : list LogEntry) : list Z :=
  omap (fun e => match e.1 with EvGPoll _ t => Some t | _ => None end) log.

Definition select_tvargs (log : list LogEntry) : list (option timeval) :=
  omap (fun e => match e.1 with EvSelect _ tv => Some tv | _ => None end) log.

(** The blocking call and the relock that follows it: the only calls
    that may be made without the lock. *)
Definition is_wait_bracket (e : Event) : bool :=
  match e with
  | EvSelect _ _ | EvMutexLockIothread => true
  | _ => false
  end.

(** Entries logged with the lock held, none of them a [g_poll] call. *)
Definition quiet (evs : list LogEntry) : Prop :=
  Forall (fun e => e.2 = true /\ forall n t, e.1 <> EvGPoll n t) evs.

(** The log is [base] followed by quiet entries, and the lock is held. *)
Definition tail_inv (base : list LogEntry) (w : World) : Prop :=
  iothread_locked w = true /\ exists evs, w_log w = base ++ evs /\ quiet evs.

(** The value the polling loop leaves in [ret], and what it logs. *)
Fixpoint polling_ret (env : Env) (log : list LogEntry) (held : bool)
         (l : list PollingEntry) (ret : Z) : Z :=
  match l with
  | [] => ret
  | pe :: next =>
      polling_ret env (log ++ [(EvPollingFunc (pe_func pe) (pe_opaque pe), held)]) held next
                  (Z.lor ret (to_int32 (env_polling_func env log (pe_func pe) (pe_opaque pe))))
  end.

Definition polling_trace (held : bool) (l : list PollingEntry) : list LogEntry :=
  (fun pe => (EvPollingFunc (pe_func pe) (pe_opaque pe), held)) <$> l.

(** The state the alternate variant is in once its polling loop is over. *)
Definition after_polling (w : World) : World :=
  set_log (w_log w ++ polling_trace (iothread_locked w) (first_polling_entry w)) w.

(** The primary variant, as the design document words it: fill; release
    the lock if the timeout is non-zero; the one wait; reacquire; poll
    and dispatch. *)
Definition posix_wait_trace (held : bool) (prio n nsel eff : Z) (dispatched : bool)
  : list LogEntry :=
  [(EvContextPrepare, held); (EvContextQuery prio, held)]
  ++ (if eff =? 0 then [(EvSelect nsel (timeout_tvarg eff), held)]
      else [(EvMutexUnlockIothread, held);
            (EvSelect nsel (timeout_tvarg eff), false);
            (EvMutexLockIothread, false)])
  ++ [(EvContextCheck prio n, if eff =? 0 then held else true)]
  ++ (if dispatched
      then [(EvContextDispatch, if eff =? 0 then held else true)]
      else []).

(** The alternate variant from the framework query to the relock. *)
Definition win32_wait_head (held : bool) (prio n eff : Z) : list LogEntry :=
  [(EvContextPrepare, held); (EvContextQuery prio, held);
   (EvMutexUnlockIothread, held); (EvGPoll n eff, false);
   (EvMutexLockIothread, false)].


(** Whether a polling callback with these two fields is registered. *)
Definition polling_registered (func_ opaque_ : Z) (l : list PollingEntry) : bool :=
  existsb (fun pe => (pe_func pe =? func_) && (pe_opaque pe =? opaque_)) l.

(** ** Sample environments and states *)

(** Nothing is pending anywhere: glib has no source and no deadline, no
    descriptor is ready, every callback returns 0. *)
Definition env_idle (cfg : Config) : Env :=
  mkEnv cfg
        (fun _ _ => (0, mkSigaction 0 0 0))
        (fun _ => 0)
        (fun _ _ => mkQueryResult 0 (-1) [])
        (fun _ _ _ => false)
        (fun _ _ s _ => (0, s))
        (fun _ _ _ => (0, []))
        (fun _ _ _ => 0)
        (fun _ t => t)
        (fun _ s => s)
        (fun _ s => s)
        (fun _ => 0).

(** As [env_idle], but [sigaction] fails. *)
Definition env_sigaction_fails : Env :=
  mkEnv (mkConfig false true)
        (fun _ _ => (-1, mkSigaction 0 0 0))
        (fun _ => 0)
        (fun _ _ => mkQueryResult 0 (-1) [])
        (fun _ _ _ => false)
        (fun _ _ s _ => (0, s))
        (fun _ _ _ => (0, []))
        (fun _ _ _ => 0)
        (fun _ t => t)
        (fun _ s => s)
        (fun _ s => s)
        (fun _ => 0).

(** Alternate platform; the device layer watches descriptor 3, which the
    trailing [select] always finds readable; glib has no source but asks
    to be called back within 10 ms, and [g_poll] times out. *)
Definition env_socket_ready : Env :=
  mkEnv (mkConfig true true)
        (fun _ _ => (0, mkSigaction 0 0 0))
        (fun _ => 0)
        (fun _ _ => mkQueryResult 0 10 [])
        (fun _ _ _ => false)
        (fun _ _ s _ => (1, s))
        (fun _ _ _ => (0, []))
        (fun _ _ _ => 0)
        (fun _ t => t)
        (fun _ s => s)
        (fun _ s => mkFdSets 3 (FD_SET 3 (rfds s)) (wfds s) (xfds s))
        (fun _ => 0).


(** A table filled to capacity with handles 1 .. 64. *)
Definition wait_objects_full : WaitObjects :=
  wait_run ((fun i => WAdd (Z.of_nat i) 7 9) <$> seq 1 64) wait_objects_init.

(** Sixty-five registrations with distinct handles. *)
Definition wait_ops_overflow : list WaitOp :=
  (fun i => WAdd (Z.of_nat i) 7 9) <$> seq 1 65.

(** A table holding handles 5, 6, 5 with distinct callbacks. *)
Definition wait_objects_three : WaitObjects :=
  wait_run [WAdd 5 10 11; WAdd 6 20 21; WAdd 5 30 31] wait_objects_init.

(** A signal descriptor delivering a 5-byte record, then a full one. *)
Definition world_short_read : World :=
  set_sigfd_pending [mkReadResult 5 0 14; mkReadResult 128 0 14] world_init.

(** A signal descriptor delivering two full records for signal 14. *)
Definition world_two_records : World :=
  set_sigfd_pending [mkReadResult 128 0 14; mkReadResult 128 0 14] world_init.

(** Two consecutive iterations of the loop. *)
Definition two_iterations (env : Env) (nonblocking1 nonblocking2 : Z) : M (Z * Z) :=
  r1 ← main_loop_wait env nonblocking1;
  r2 ← main_loop_wait env nonblocking2;
  mret (r1, r2).

(** The state at process start with one polling callback registered. *)
Definition world_polling : World :=
  mkWorld [] true 0 (mkFdSets 0 0 0 0)
          (replicate (Z.to_nat ARRAY_SIZE_poll_fds) (mkGPollFD 0 0 0))
          0 0 [mkPollingEntry 100 200] wait_objects_init [].




(** ** Start-up *)

(** A signal set, as the list of the signals put into it. *)
Definition sigset_t : Type := list Z.
Definition sigemptyset : sigset_t := [].
Definition sigaddset (set : sigset_t) (signo : Z) : sigset_t := signo :: set.
Definition sigdelset (set : sigset_t) (signo : Z) : sigset_t :=
  filter (fun s => s <> signo) set.
Definition sigismember (set : sigset_t) (signo : Z) : bool :=
  bool_decide (signo ∈ set).

(** Signal numbers of the host's headers, with their Linux values. *)
Definition SIGBUS : Z := 7.
Definition SIGALRM : Z := 14.
Definition SIGIO : Z := 29.

Inductive InitEvent :=
| IeInitClocks
| IeInitTimerAlarm
| IeFprintf (msg : string)
| IePthreadSigmaskBlock (set : sigset_t)
| IeSignalfd (set : sigset_t)
| IeFcntlSetflNonblock (fd : Z)
| IeSetFdHandler2Sigfd (fd opaque : Z)
| IeAioContextNew
| IeAioGetGSource (ctx : Z)
| IeGSourceAttach (src : Z)
| IeGSourceUnref (src : Z).

(** What start-up meets outside the file.  [SIG_IPI] is a macro of a
    header that is not part of the sources at hand, so the signal it
    names is a parameter. *)
Record InitEnv := mkInitEnv {
  ie_config : Config;
  SIG_IPI : Z;
  ie_init_timer_alarm : Z;
  ie_signalfd : sigset_t -> Z;
  ie_errno : Z;
  ie_aio_context_new : Z;
  ie_aio_get_g_source : Z -> Z
}.

(** How a start-up function ends: by returning, or in [exit]. *)
Inductive InitOutcome :=
| Returned (ret : Z)
| Exited (status : Z).

Definition set_qemu_aio_context (x : Z) (w : World) : World :=
  mkWorld (w_log w) (iothread_locked w) x (w_fds w) (poll_fds w)
          (n_poll_fds w) (max_priority w) (first_polling_entry w) (wait_objects w)
          (sigfd_pending w).

(** The set [qemu_signal_init] blocks on the calling thread. *)
Definition blocked_signals (ie : InitEnv) : sigset_t :=
  sigaddset (sigaddset (sigaddset (sigaddset sigemptyset (SIG_IPI ie)) SIGIO) SIGALRM)
            SIGBUS.

(** [qemu_signal_init], both platform variants: the value returned and
    the calls made. *)
Definition qemu_signal_init (ie : InitEnv) : Z * list InitEvent :=
  if WIN32 (ie_config ie) then (0, [])
  else
    let set := blocked_signals ie in
    let masked := [IePthreadSigmaskBlock set] in
    let set := sigdelset set (SIG_IPI ie) in
    let sigfd := to_int32 (ie_signalfd ie set) in
    if sigfd =? -1
    then (to_int32 (- ie_errno ie),
          masked ++ [IeSignalfd set; IeFprintf "failed to create signalfd\n"])
    else (0,
          masked ++ [IeSignalfd set; IeFcntlSetflNonblock sigfd;
                     IeSetFdHandler2Sigfd sigfd sigfd]).

(** [qemu_init_main_loop]: how it ends, the state it leaves (only
    [qemu_aio_context] can change) and the calls made. *)
Definition qemu_init_main_loop (ie : InitEnv) (w : World)
  : InitOutcome * World * list InitEvent :=
  let started := [IeInitClocks; IeInitTimerAlarm] in
  if to_int32 (ie_init_timer_alarm ie) <? 0
  then (Exited 1, w, started ++ [IeFprintf "could not initialize alarm timer\n"])
  else
    let r := qemu_signal_init ie in
    if negb (fst r =? 0) then (Returned (fst r), w, started ++ snd r)
    else
      let ctx := ie_aio_context_new ie in
      let src := ie_aio_get_g_source ie ctx in
      (Returned 0, set_qemu_aio_context ctx w,
       started ++ snd r ++ [IeAioContextNew; IeAioGetGSource ctx;
                            IeGSourceAttach src; IeGSourceUnref src]).

(** ** Vocabulary of the further properties *)

(** The records of [l] that carry descriptor [fd] and satisfy [interest]. *)
Definition watched (interest : GPollFD -> bool) (fd : Z) (l : list GPollFD) : bool :=
  existsb (fun p => (pfd_fd p =? fd) && interest p) l.

(** The values the polling callbacks return, in call order. *)
Fixpoint polling_results (env : Env) (log : list LogEntry) (held : bool)
         (l : list PollingEntry) : list Z :=
  match l with
  | [] => []
  | pe :: next =>
      to_int32 (env_polling_func env log (pe_func pe) (pe_opaque pe))
      :: polling_results env (log ++ [(EvPollingFunc (pe_func pe) (pe_opaque pe), held)])
                         held next
  end.

(** The callback invocations the wait-object loop makes for a table. *)
Definition wait_object_calls (w : WaitObjects) (held : bool) (ixs : list nat)
  : list LogEntry :=
  omap (fun i => if negb (revents w !!! i =? 0) && negb (func w !!! i =? 0)
                 then Some (EvWaitObjectFunc (func w !!! i) (opaque w !!! i), held)
                 else None) ixs.

(** Entries logged with the lock held that are neither an unlock, nor a
    [g_poll], nor a [select] with a deadline other than zero. *)
Definition settled (evs : list LogEntry) : Prop :=
  Forall (fun e => e.2 = true /\
                   match e.1 with
                   | EvGPoll _ _ | EvMutexUnlockIothread => False
                   | EvSelect _ tv => tv = Some tv0
                   | _ => True
                   end) evs.

Definition settled_inv (base : list LogEntry) (w : World) : Prop :=
  iothread_locked w = true /\ exists evs, w_log w = base ++ evs /\ settled evs.

(** The network stack only ever shortens a zero timeout to zero. *)
Definition slirp_keeps_zero (env : Env) : Prop :=
  forall log, to_uint32 (env_slirp_update_timeout env log 0) = 0.

(** ** Further sample environments and states *)

(** Signal 14 is handled in the extended form by handler 77, every other
    signal in the basic form by handler 55. *)
Definition sigaction_table (signo : Z) : sigaction_t :=
  if signo =? 14 then mkSigaction SA_SIGINFO 77 0 else mkSigaction 0 0 55.

Definition env_signals : Env :=
  mkEnv (mkConfig false true)
        (fun _ signo => (0, sigaction_table signo))
        (fun _ => 0)
        (fun _ _ => mkQueryResult 0 (-1) [])
        (fun _ _ _ => false)
        (fun _ _ s _ => (0, s))
        (fun _ _ _ => (0, []))
        (fun _ _ _ => 0)
        (fun _ t => t)
        (fun _ s => s)
        (fun _ s => s)
        (fun _ => 0).

(** Two alarm signals and one I/O signal queued, an interrupted read in
    between. *)
Definition world_signals : World :=
  set_sigfd_pending
    [mkReadResult 128 0 14; mkReadResult (-1) 4 0; mkReadResult 128 0 29;
     mkReadResult 128 0 14]
    world_init.

(** An alarm signal, an interrupted read, a 5-byte record, and one more
    alarm signal behind it. *)
Definition world_short_read_behind : World :=
  set_sigfd_pending
    [mkReadResult 128 0 14; mkReadResult (-1) 4 0; mkReadResult 5 0 29;
     mkReadResult 128 0 14]
    world_init.

(** As [env_idle] on the alternate platform, but every polling callback
    returns 2. *)
Definition env_polling_busy : Env :=
  mkEnv (mkConfig true true)
        (fun _ _ => (0, mkSigaction 0 0 0))
        (fun _ => 0)
        (fun _ _ => mkQueryResult 0 (-1) [])
        (fun _ _ _ => false)
        (fun _ _ s _ => (0, s))
        (fun _ _ _ => (0, []))
        (fun _ _ _ => 2)
        (fun _ t => t)
        (fun _ s => s)
        (fun _ s => s)
        (fun _ => 0).

(** glib reports more pending sources than [poll_fds] holds. *)
Definition env_overflow (cfg : Config) : Env :=
  mkEnv cfg
        (fun _ _ => (0, mkSigaction 0 0 0))
        (fun _ => 0)
        (fun _ _ => mkQueryResult 2049 (-1) [])
        (fun _ _ _ => false)
        (fun _ _ s _ => (0, s))
        (fun _ _ _ => (0, []))
        (fun _ _ _ => 0)
        (fun _ t => t)
        (fun _ s => s)
        (fun _ s => s)
        (fun _ => 0).

(** glib reports a negative number of pending sources. *)
Definition env_negative_count (cfg : Config) : Env :=
  mkEnv cfg
        (fun _ _ => (0, mkSigaction 0 0 0))
        (fun _ => 0)
        (fun _ _ => mkQueryResult (-1) (-1) [])
        (fun _ _ _ => false)
        (fun _ _ s _ => (0, s))
        (fun _ _ _ => (0, []))
        (fun _ _ _ => 0)
        (fun _ t => t)
        (fun _ s => s)
        (fun _ s => s)
        (fun _ => 0).

(** Start-up environments: everything succeeds; the alarm timer fails;
    the signal descriptor cannot be created ([errno] is 24). *)
Definition init_env_ok : InitEnv :=
  mkInitEnv (mkConfig false true) 10 0 (fun _ => 5) 0 4096 (fun ctx => ctx + 8).
Definition init_env_no_alarm : InitEnv :=
  mkInitEnv (mkConfig false true) 10 (-1) (fun _ => 5) 0 4096 (fun ctx => ctx + 8).
Definition init_env_no_signalfd : InitEnv :=
  mkInitEnv (mkConfig false true) 10 0 (fun _ => -1) 24 4096 (fun ctx => ctx + 8).

(** Three poll records: descriptor 3 for input, 5 for output and error,
    3 again for output. *)
Definition sample_poll_fds : list GPollFD :=
  [mkGPollFD 3 G_IO_IN 0; mkGPollFD 5 (Z.lor G_IO_OUT G_IO_ERR) 0; mkGPollFD 3 G_IO_OUT 0].

(** glib reports these three records and no deadline. *)
Definition env_sources : Env :=
  mkEnv (mkConfig false true)
        (fun _ _ => (0, mkSigaction 0 0 0))
        (fun _ => 0)
        (fun _ _ => mkQueryResult 3 (-1) sample_poll_fds)
        (fun _ _ _ => false)
        (fun _ _ s _ => (0, s))
        (fun _ _ _ => (0, []))
        (fun _ _ _ => 0)
        (fun _ t => t)
        (fun _ s => s)
        (fun _ s => s)
        (fun _ => 0).

(** The handler invocations owed to a queue of reads under a fixed table
    of dispositions: those of each complete record, in queue order. *)
Definition expected_handler_calls (tbl : Z -> sigaction_t) (pending : list ReadResult)
  : list Event :=
  flat_map (fun r => if is_full_record r
                     then handler_call (tbl (ssi_signo r)) (ssi_signo r)
                     else []) pending.

(** The one invocation made for a signal whose handler is a function,
    and the invocations owed to a queue of reads when every signal in it
    has such a handler: exactly one per complete record, in queue order. *)
Definition handler_event (act : sigaction_t) (signo : Z) : Event :=
  if negb (Z.land (sa_flags act) SA_SIGINFO =? 0) && negb (sa_sigaction act =? 0)
  then EvSaSigaction (sa_sigaction act) signo
  else EvSaHandler (sa_handler act) signo.

Definition one_call_per_record (tbl : Z -> sigaction_t) (pending : list ReadResult)
  : list Event :=
  omap (fun r => if is_full_record r
                 then Some (handler_event (tbl (ssi_signo r)) (ssi_signo r))
                 else None) pending.

Definition is_printf (e : Event) : bool :=
  match e with EvPrintf _ _ => true | _ => false end.

(** The run of [m] from [w] aborts the process, in a state satisfying [Q]. *)
Definition wp_abort {A} (m : M A) (Q : World -> Prop) (w : World) : Prop :=
  match m w with
  | (Abort, w') => Q w'
  | (Ret _, _) => False
  end.

(** The turn of the loop that appends the wait objects to [poll_fds]. *)
Definition to_poll_fds_step (w : WaitObjects) (n : Z) (fds : list GPollFD) (i : nat)
  : list GPollFD :=
  let k := Z.to_nat (n + Z.of_nat i) in
  <[k := mkGPollFD (events w !!! i) G_IO_IN (pfd_revents (fds !!! k))]> fds.

(** The turn of the loop that copies the result masks back. *)
Definition copy_revents_step (n : Z) (fds : list GPollFD) (w : WaitObjects) (i : nat)
  : WaitObjects :=
  {| num := num w;
     revents := <[i := pfd_revents (fds !!! Z.to_nat (n + Z.of_nat i))]> (revents w);
     events := events w; func := func w; opaque := opaque w |}.



(** * Properties *)

(** ** The polling-callback list *)

Lemma polling_registered_elem_of f o (l : list PollingEntry) :
  polling_registered f o l = true <-> mkPollingEntry f o ∈ l.
Proof.
  unfold polling_registered. rewrite existsb_exists. split.
  - intros ([f' o'] & Hin & Heq). apply andb_prop in Heq as [Hf Ho].
    apply Z.eqb_eq in Hf, Ho. simpl in *. subst. by apply list_elem_of_In.
  - intros Hin. exists (mkPollingEntry f o). split; [by apply list_elem_of_In|].
    simpl. by rewrite !Z.eqb_refl.
Qed.

Lemma del_polling_absent f o (l : list PollingEntry) :
  mkPollingEntry f o ∉ l -> qemu_del_polling_cb f o l = l.
Proof.
  induction l as [|[f' o'] l IH]; intros Hn; simpl; [done|].
  apply not_elem_of_cons in Hn as [Hne Hn].
  destruct (Z.eqb_spec f' f), (Z.eqb_spec o' o); simpl; subst;
    [congruence|f_equal; auto..].
Qed.

Lemma del_polling_present f o (l : list PollingEntry) :
  mkPollingEntry f o ∈ l ->
  qemu_del_polling_cb f o l ++ [mkPollingEntry f o] ≡ₚ l /\
  sublist (qemu_del_polling_cb f o l) l.
Proof.
  induction l as [|[f' o'] l IH]; intros Hin; [by apply elem_of_nil in Hin|].
  simpl.
  destruct (Z.eqb_spec f' f), (Z.eqb_spec o' o); simpl; subst;
    [split; [by rewrite Permutation_app_comm | by apply sublist_cons]|..];
    (apply elem_of_cons in Hin as [?|Hin]; [congruence|];
     destruct (IH Hin) as [Hp Hs];
     split; [by rewrite Hp | by apply sublist_skip]).
Qed.

Lemma polling_run_inv ops (l : list PollingEntry) :
  polling_run ops l ++ polling_removed ops l ≡ₚ l ++ polling_adds ops /\
  sublist (polling_run ops l) (l ++ polling_adds ops).
Proof.
  revert l. induction ops as [|op ops IH]; intros l.
  - simpl. rewrite !app_nil_r. done.
  - destruct op as [f o|f o];
      cbn [polling_run fold_left polling_removed polling_adds omap].
    + destruct (IH (polling_step l (PAdd f o))) as [Hp Hs].
      fold (polling_run ops (polling_step l (PAdd f o))).
      simpl in *. rewrite <- !app_assoc in *. simpl in *. done.
    + destruct (IH (polling_step l (PDel f o))) as [Hp Hs].
      fold (polling_run ops (polling_step l (PDel f o))).
      fold (polling_adds ops).
      simpl in *. case_decide as Hin.
      * destruct (del_polling_present f o l Hin) as [Hp' Hs'].
        split.
        -- etrans; [symmetry; apply Permutation_middle|].
           etrans; [apply Permutation_skip, Hp|].
           etrans; [|apply Permutation_app_tail, Hp'].
           rewrite app_comm_cons.
           apply Permutation_app_tail, Permutation_cons_append.
        -- etrans; [exact Hs|]. by apply sublist_app.
      * rewrite del_polling_absent in Hp, Hs |- * by done. done.
Qed.

(** ** The wait-object table *)

Lemma array_shift_fold_length (l : list Z) k m :
  length (fold_left array_shift (seq k m) l) = length l.
Proof.
  induction m as [|m IH]; [done|].
  rewrite seq_S, fold_left_app. simpl. unfold array_shift at 1.
  by rewrite length_insert.
Qed.

(** Shifting cells [k .. k + m - 1] in increasing order moves each of
    them one place to the left and touches nothing else. *)
Lemma array_shift_fold_lookup (l : list Z) k m j :
  (k + m <= length l)%nat ->
  fold_left array_shift (seq k m) l !!! j =
  if decide (k <= j < k + m)%nat then l !!! S j else l !!! j.
Proof.
  revert j. induction m as [|m IH]; intros j Hlen.
  - simpl. case_decide; [lia|done].
  - rewrite seq_S, fold_left_app. simpl. unfold array_shift at 1.
    destruct (decide (j = k + m)%nat) as [->|Hne].
    + rewrite list_lookup_total_insert_eq
        by (rewrite array_shift_fold_length; lia).
      rewrite IH by lia. repeat case_decide; try lia; done.
    + rewrite list_lookup_total_insert_ne by done.
      rewrite IH by lia. repeat case_decide; try lia; done.
Qed.

Lemma shift_fold_fields ixs w :
  let w' := fold_left wait_objects_shift ixs w in
  num w' = num w /\
  revents w' = fold_left array_shift ixs (revents w) /\
  events w' = fold_left array_shift ixs (events w) /\
  func w' = fold_left array_shift ixs (func w) /\
  opaque w' = fold_left array_shift ixs (opaque w).
Proof.
  revert w. induction ixs as [|i ixs IH]; intros w; simpl; [done|].
  destruct (IH (wait_objects_shift w i)) as (-> & -> & -> & -> & ->). done.
Qed.

Lemma del_fold_found h ixs w :
  fold_left (del_wait_object_step h) ixs (true, w) =
  (true, fold_left wait_objects_shift ixs w).
Proof.
  revert w. induction ixs as [|i ixs IH]; intros w; simpl; [done|].
  unfold del_wait_object_step at 2. simpl. apply IH.
Qed.

Lemma del_fold_absent h w a m :
  (forall i, (a <= i < a + m)%nat -> events w !!! i <> h) ->
  fold_left (del_wait_object_step h) (seq a m) (false, w) = (false, w).
Proof.
  revert a. induction m as [|m IH]; intros a Hno; simpl; [done|].
  unfold del_wait_object_step at 2. simpl.
  destruct (Z.eqb_spec (events w !!! a) h) as [He|_].
  - exfalso. apply (Hno a); [lia|done].
  - apply IH. intros i Hi. apply Hno. lia.
Qed.

Lemma del_fold_first h w n k :
  (k < n)%nat ->
  (forall i, (i < k)%nat -> events w !!! i <> h) ->
  events w !!! k = h ->
  fold_left (del_wait_object_step h) (seq 0 n) (false, w) =
  (true, fold_left wait_objects_shift (seq k (n - k)) w).
Proof.
  intros Hk Hno Hk'.
  replace n with (k + (n - k))%nat at 1 by lia.
  rewrite seq_app, fold_left_app, del_fold_absent by (intros; apply Hno; lia).
  simpl. destruct (n - k)%nat as [|m] eqn:E; [lia|].
  simpl. unfold del_wait_object_step at 2. simpl.
  rewrite Hk', Z.eqb_refl. simpl. apply del_fold_found.
Qed.

Lemma entries_lookup w j :
  wait_objects_entries w !! j =
  if decide (j < Z.to_nat (num w))%nat then Some (wait_objects_cell w j) else None.
Proof.
  unfold wait_objects_entries. rewrite list_lookup_fmap.
  case_decide.
  - by rewrite lookup_seq_lt.
  - by rewrite lookup_seq_ge by lia.
Qed.

Lemma entries_length w : length (wait_objects_entries w) = Z.to_nat (num w).
Proof. unfold wait_objects_entries. by rewrite length_fmap, length_seq. Qed.

Lemma remove_first_handle_find h l :
  remove_first_handle h l =
  match list_find (fun e => we_handle e = h) l with
  | Some (k, _) => delete k l
  | None => l
  end.
Proof.
  induction l as [|e l IH]; [done|].
  cbn [remove_first_handle list_find].
  destruct (Z.eqb_spec (we_handle e) h) as [He|He].
  - rewrite decide_True by done. done.
  - rewrite decide_False by done. rewrite IH.
    destruct (list_find _ l) as [[k x]|]; done.
Qed.

Lemma find_first_handle_find h l :
  find_first_handle h l = snd <$> list_find (fun e => we_handle e = h) l.
Proof.
  induction l as [|e l IH]; [done|].
  cbn [find_first_handle list_find].
  destruct (Z.eqb_spec (we_handle e) h) as [He|He].
  - rewrite decide_True by done. done.
  - rewrite decide_False by done. rewrite IH.
    destruct (list_find _ l) as [[k x]|]; done.
Qed.

Lemma del_wait_object_absent h f o w :
  list_find (fun e => we_handle e = h) (wait_objects_entries w) = None ->
  qemu_del_wait_object h f o w = w.
Proof.
  intros Hnone. unfold qemu_del_wait_object.
  rewrite del_fold_absent; [done|].
  intros i Hi He.
  rewrite list_find_None, Forall_lookup in Hnone.
  apply (Hnone i (wait_objects_cell w i)); [|done].
  rewrite entries_lookup, decide_True by lia. done.
Qed.

Lemma del_wait_object_present h f o w k e :
  wait_objects_wf w ->
  list_find (fun e => we_handle e = h) (wait_objects_entries w) = Some (k, e) ->
  wait_objects_wf (qemu_del_wait_object h f o w) /\
  wait_objects_entries (qemu_del_wait_object h f o w) = delete k (wait_objects_entries w).
Proof.
  intros (Hn & Hl1 & Hl2 & Hl3 & Hl4) Hfind.
  apply list_find_Some in Hfind as (Hk & He & Hfirst).
  rewrite entries_lookup in Hk. case_decide as Hkn; [|done].
  injection Hk as <-.
  unfold qemu_del_wait_object.
  rewrite (del_fold_first h w (Z.to_nat (num w)) k); [|done| |done].
  2:{ intros i Hi Heq. apply (Hfirst i (wait_objects_cell w i)); [|done|done].
      rewrite entries_lookup, decide_True by lia. done. }
  cbn [fst snd].
  destruct (shift_fold_fields (seq k (Z.to_nat (num w) - k)) w)
    as (En & Er & Eev & Ef & Eo).
  rewrite En, Er, Eev, Ef, Eo.
  unfold MAXIMUM_WAIT_OBJECTS in *.
  split.
  - unfold wait_objects_wf; cbn [num revents events func opaque].
    rewrite !array_shift_fold_length. unfold MAXIMUM_WAIT_OBJECTS. lia.
  - apply list_eq. intros j.
    rewrite entries_lookup. cbn [num].
    destruct (decide (j < k)%nat) as [Hjk|Hjk].
    + rewrite list_lookup_delete_lt by done. rewrite entries_lookup.
      rewrite !decide_True by lia.
      unfold wait_objects_cell; cbn [num revents events func opaque].
      rewrite !array_shift_fold_lookup by lia.
      rewrite !decide_False by lia. done.
    + rewrite list_lookup_delete_ge by lia. rewrite entries_lookup.
      case_decide.
      * rewrite decide_True by lia.
        unfold wait_objects_cell; cbn [num revents events func opaque].
        rewrite !array_shift_fold_lookup by lia.
        rewrite !decide_True by lia. done.
      * rewrite decide_False by lia. done.
Qed.

Lemma add_wait_object_full h f o w :
  num w >= MAXIMUM_WAIT_OBJECTS -> qemu_add_wait_object h f o w = (-1, w).
Proof.
  intros H. unfold qemu_add_wait_object.
  destruct (Z.geb_spec (num w) MAXIMUM_WAIT_OBJECTS); [done|lia].
Qed.

Lemma add_wait_object_room h f o w :
  wait_objects_wf w -> num w < MAXIMUM_WAIT_OBJECTS ->
  fst (qemu_add_wait_object h f o w) = 0 /\
  wait_objects_wf (snd (qemu_add_wait_object h f o w)) /\
  wait_objects_entries (snd (qemu_add_wait_object h f o w)) =
  wait_objects_entries w ++ [mkWaitEntry h f o 0].
Proof.
  intros (Hn & Hl1 & Hl2 & Hl3 & Hl4) Hlt. unfold qemu_add_wait_object.
  destruct (Z.geb_spec (num w) MAXIMUM_WAIT_OBJECTS); [lia|].
  cbn [fst snd]. unfold MAXIMUM_WAIT_OBJECTS in *.
  split; [done|]. split.
  - unfold wait_objects_wf; cbn [num revents events func opaque].
    rewrite !length_insert. unfold MAXIMUM_WAIT_OBJECTS. lia.
  - apply list_eq. intros j. rewrite entries_lookup. cbn [num].
    destruct (decide (j < Z.to_nat (num w))%nat) as [Hj|Hj].
    + rewrite lookup_app_l by (rewrite entries_length; lia).
      rewrite entries_lookup, !decide_True by lia.
      unfold wait_objects_cell; cbn [num revents events func opaque].
      rewrite !list_lookup_total_insert_ne by lia. done.
    + rewrite lookup_app_r by (rewrite entries_length; lia).
      rewrite entries_length.
      destruct (decide (j = Z.to_nat (num w))) as [->|Hne].
      * rewrite decide_True by lia. rewrite Nat.sub_diag. simpl.
        unfold wait_objects_cell; cbn [num revents events func opaque].
        rewrite !list_lookup_total_insert_eq by lia. done.
      * rewrite decide_False by lia.
        destruct (j - Z.to_nat (num w))%nat eqn:E; [lia|done].
Qed.

Lemma wait_objects_init_wf : wait_objects_wf wait_objects_init.
Proof. unfold wait_objects_wf. vm_compute. repeat split; congruence. Qed.

Lemma wait_run_inv ops w :
  wait_objects_wf w ->
  wait_objects_wf (wait_run ops w) /\
  wait_objects_entries (wait_run ops w) ++ wait_removed ops w
    ≡ₚ wait_objects_entries w ++ wait_accepted ops w /\
  sublist (wait_objects_entries (wait_run ops w))
          (wait_objects_entries w ++ wait_accepted ops w).
Proof.
  revert w. induction ops as [|op ops IH]; intros w Hwf.
  - simpl. rewrite !app_nil_r. done.
  - destruct op as [h f o|h f o];
      cbn [wait_run fold_left wait_removed wait_accepted].
    + fold (wait_run ops (wait_step w (WAdd h f o))).
      destruct (Z_lt_ge_dec (num w) MAXIMUM_WAIT_OBJECTS) as [Hlt|Hge].
      * destruct (add_wait_object_room h f o w Hwf Hlt) as (Hr & Hwf' & He).
        destruct (IH (wait_step w (WAdd h f o)) Hwf') as (Hwf'' & Hp & Hs).
        cbn [wait_step] in *. rewrite He in *.
        rewrite (proj2 (Z.ltb_lt _ _) Hlt). simpl.
        rewrite <- !app_assoc in *. simpl in *. done.
      * cbn [wait_step]. rewrite add_wait_object_full by done.
        rewrite (proj2 (Z.ltb_ge _ _)) by lia. simpl.
        apply (IH w Hwf).
    + fold (wait_run ops (wait_step w (WDel h f o))).
      cbn [wait_step]. rewrite find_first_handle_find.
      destruct (list_find _ (wait_objects_entries w)) as [[k e]|] eqn:Hfind.
      * destruct (del_wait_object_present h f o w k e Hwf Hfind) as [Hwf' He].
        destruct (IH _ Hwf') as (Hwf'' & Hp & Hs).
        apply list_find_Some in Hfind as (Hk & _ & _).
        split; [done|]. rewrite He in *. simpl. split.
        -- etrans; [symmetry; apply Permutation_middle|].
           etrans; [apply Permutation_skip, Hp|].
           rewrite app_comm_cons.
           apply Permutation_app_tail. symmetry.
           by apply delete_Permutation.
        -- etrans; [exact Hs|]. apply sublist_app; [|done]. apply sublist_delete.
      * rewrite del_wait_object_absent by done. simpl.
        apply (IH w Hwf).
Qed.


(** ** Claims about the two registries *)

(** C2.  Once the count has reached [MAXIMUM_WAIT_OBJECTS], adding a wait
    object returns the error value -1 and hands back the very same table:
    count, handles, callbacks, opaque pointers and result fields are all
    untouched. *)
Theorem add_wait_object_at_capacity handle func_ opaque_ w :
  num w >= MAXIMUM_WAIT_OBJECTS ->
  qemu_add_wait_object handle func_ opaque_ w = (-1, w).
Proof. apply add_wait_object_full. Qed.

Lemma add_wait_object_at_capacity_witness :
  num wait_objects_full >= MAXIMUM_WAIT_OBJECTS /\
  qemu_add_wait_object 65 7 9 wait_objects_full = (-1, wait_objects_full).
Proof.
  split; [vm_compute; discriminate|].
  apply add_wait_object_at_capacity. vm_compute. discriminate.
Defined.

(** C5, as stated: after any sequence of operations the members are all
    the adds minus the matched removes.  It fails on the wait-object
    table: of sixty-five registrations only sixty-four are members. *)
Lemma wait_table_drops_adds_at_capacity :
  ~ (wait_objects_entries (wait_run wait_ops_overflow wait_objects_init)
       ++ wait_removed wait_ops_overflow wait_objects_init
     ≡ₚ wait_adds wait_ops_overflow).
Proof.
  intros H. apply Permutation_length in H. vm_compute in H. discriminate.
Qed.

(** C5, amended.  Starting from the empty registries, after any sequence
    of add and remove operations: the polling list together with the
    entries its removals unlinked is a permutation of all the adds, and
    the list is a subsequence of the adds in registration order; the live
    part of the wait-object table together with the entries its removals
    dropped is a permutation of the adds made below capacity (while
    the table held fewer than [MAXIMUM_WAIT_OBJECTS] entries), and it is
    a subsequence of them in registration order. *)
Theorem registries_membership_and_order (pops : list PollingOp) (wops : list WaitOp) :
  (polling_run pops [] ++ polling_removed pops [] ≡ₚ polling_adds pops /\
   sublist (polling_run pops []) (polling_adds pops)) /\
  (wait_objects_entries (wait_run wops wait_objects_init)
     ++ wait_removed wops wait_objects_init
   ≡ₚ wait_accepted wops wait_objects_init /\
   sublist (wait_objects_entries (wait_run wops wait_objects_init))
           (wait_accepted wops wait_objects_init)).
Proof.
  split.
  - apply (polling_run_inv pops []).
  - destruct (wait_run_inv wops wait_objects_init wait_objects_init_wf)
      as (_ & Hp & Hs).
    done.
Qed.

(** C8.  Removing a polling callback that is not registered, or a wait
    object whose handle is not in the live part of the table, hands back
    the registry unchanged. *)
Theorem del_absent_is_noop func_ opaque_ (l : list PollingEntry) handle wfunc wopaque w :
  polling_registered func_ opaque_ l = false ->
  find_first_handle handle (wait_objects_entries w) = None ->
  qemu_del_polling_cb func_ opaque_ l = l /\
  qemu_del_wait_object handle wfunc wopaque w = w.
Proof.
  intros Hp Hw. split.
  - apply del_polling_absent. intros Hin.
    apply polling_registered_elem_of in Hin. congruence.
  - apply del_wait_object_absent.
    rewrite find_first_handle_find in Hw.
    by destruct (list_find _ _).
Qed.

Lemma del_absent_is_noop_witness :
  qemu_del_polling_cb 1 3 [mkPollingEntry 1 2; mkPollingEntry 4 3]
    = [mkPollingEntry 1 2; mkPollingEntry 4 3] /\
  qemu_del_wait_object 7 10 11 wait_objects_three = wait_objects_three.
Proof.
  apply del_absent_is_noop; reflexivity.
Defined.

(** C10.  Wait-object removal looks at the handle only: the callback and
    opaque arguments do not change the outcome, and the live part of the
    table afterwards is the one before with the first entry carrying that
    handle taken out. *)
Theorem del_wait_object_by_handle_alone handle f o f' o' w :
  wait_objects_wf w ->
  qemu_del_wait_object handle f o w = qemu_del_wait_object handle f' o' w /\
  wait_objects_entries (qemu_del_wait_object handle f o w)
  = remove_first_handle handle (wait_objects_entries w).
Proof.
  intros Hwf. split; [done|].
  rewrite remove_first_handle_find.
  destruct (list_find _ (wait_objects_entries w)) as [[k e]|] eqn:Hfind.
  - by destruct (del_wait_object_present handle f o w k e Hwf Hfind).
  - by rewrite del_wait_object_absent.
Qed.

Lemma del_wait_object_by_handle_alone_witness :
  qemu_del_wait_object 5 30 31 wait_objects_three
  = qemu_del_wait_object 5 0 0 wait_objects_three /\
  wait_objects_entries (qemu_del_wait_object 5 30 31 wait_objects_three)
  = [mkWaitEntry 6 20 21 0; mkWaitEntry 5 30 31 0].
Proof.
  apply (del_wait_object_by_handle_alone 5 30 31 0 0 wait_objects_three).
  unfold wait_objects_wf. vm_compute. repeat split; congruence.
Defined.


(** ** Rules for runs *)

Lemma wp_ret {A} (a : A) Q w : Q a w -> wp (mret a) Q w.
Proof. done. Qed.

Lemma wp_bind {A B} (m : M A) (k : A -> M B) Q w :
  wp m (fun a w' => wp (k a) Q w') w -> wp (m ≫= k) Q w.
Proof.
  unfold wp, mbind, M_bind. destruct (m w) as [[a|] w']; done.
Qed.

Lemma wp_get {A} (f : World -> A) Q w : Q (f w) w -> wp (get f) Q w.
Proof. done. Qed.

Lemma wp_modify f Q w : Q tt (f w) -> wp (modify f) Q w.
Proof. done. Qed.

Lemma wp_emit e Q w :
  Q tt (set_log (w_log w ++ [(e, iothread_locked w)]) w) -> wp (emit e) Q w.
Proof. done. Qed.

Lemma wp_assert b Q w : b = true -> Q tt w -> wp (g_assert b) Q w.
Proof. by intros ->. Qed.

Lemma wp_mono {A} (m : M A) (Q Q' : A -> World -> Prop) w :
  (forall a w', Q a w' -> Q' a w') -> wp m Q w -> wp m Q' w.
Proof. unfold wp. destruct (m w) as [[a|] w']; auto. Qed.

Lemma wp_run {A} (m : M A) Q w :
  wp m Q w <-> exists a w', m w = (Ret a, w') /\ Q a w'.
Proof.
  unfold wp. destruct (m w) as [[a|] w']; split.
  - eauto.
  - by intros (? & ? & [= <- <-] & ?).
  - done.
  - by intros (? & ? & [=] & ?).
Qed.

(** A call whose run is known can be replaced by its result. *)
Lemma wp_call {A B} (m : M A) (k : A -> M B) Q w a w' :
  m w = (Ret a, w') -> wp (k a) Q w' -> wp (m ≫= k) Q w.
Proof. intros Hm Hk. apply wp_bind. unfold wp at 1. by rewrite Hm. Qed.

Lemma wp_for_each {A} (I : World -> Prop) (l : list A) (body : A -> M unit) w :
  I w ->
  (forall a w, I w -> wp (body a) (fun _ w' => I w') w) ->
  wp (for_each l body) (fun _ w' => I w') w.
Proof.
  intros Hw Hbody. revert w Hw. induction l as [|a l IH]; intros w Hw.
  - done.
  - cbn [for_each]. apply wp_bind.
    eapply wp_mono; [|apply Hbody, Hw]. intros ? w' Hw'. by apply IH.
Qed.

Lemma new_events_app w w' evs :
  w_log w' = w_log w ++ evs -> new_events w w' = evs.
Proof. intros H. unfold new_events. by rewrite H, drop_app_length. Qed.

Ltac wsimpl :=
  cbn [w_log iothread_locked qemu_aio_context w_fds poll_fds n_poll_fds
       max_priority first_polling_entry wait_objects sigfd_pending
       set_log set_iothread_locked set_fds set_poll_fds set_n_poll_fds
       set_max_priority set_wait_objects set_sigfd_pending
       nfds rfds wfds xfds fst snd].

Tactic Notation "wsimpl" "in" hyp(H) :=
  cbn [w_log iothread_locked qemu_aio_context w_fds poll_fds n_poll_fds
       max_priority first_polling_entry wait_objects sigfd_pending
       set_log set_iothread_locked set_fds set_poll_fds set_n_poll_fds
       set_max_priority set_wait_objects set_sigfd_pending
       nfds rfds wfds xfds fst snd] in H.

Ltac wp_step_raw :=
  lazymatch goal with
  | |- wp (mbind _ _) _ _ => apply wp_bind
  | |- wp (mret _) _ _ => apply wp_ret
  | |- wp (get _) _ _ => apply wp_get
  | |- wp (modify _) _ _ => apply wp_modify
  | |- wp (emit _) _ _ => apply wp_emit
  end.

Ltac wp_step := wp_step_raw; wsimpl.

Ltac head_of t :=
  lazymatch t with
  | ?f _ => head_of f
  | _ => t
  end.

Ltac wp_unfold :=
  lazymatch goal with
  | |- wp ?m _ _ => let h := head_of m in unfold h
  end.

(** Run straight-line code symbolically, simplifying the state or not. *)
Ltac wp_go := repeat (first [wp_step | progress cbv beta iota | wp_unfold]).
Ltac wp_go_raw := repeat (first [wp_step_raw | progress cbv beta iota | wp_unfold]).

(** ** Signal bridge *)

(** C1, as stated: a short read, and a failing [sigaction], abort the
    process.  Neither does: the handler returns normally in both cases. *)
Lemma sigfd_bad_record_is_not_fatal :
  fst (sigfd_handler (env_idle (mkConfig false true)) 3 world_short_read) <> Abort /\
  fst (sigfd_handler env_sigaction_fails 3 world_two_records) <> Abort.
Proof. split; vm_compute; discriminate. Qed.

Lemma sigfd_drain_pending_irrelevant env l p w :
  sigfd_drain env l (set_sigfd_pending p w) = sigfd_drain env l w.
Proof.
  destruct l as [|r rest]; cbn [sigfd_drain];
    unfold mbind, M_bind, modify; by destruct w.
Qed.

Lemma sigfd_drain_pending_eq env l w1 w2 :
  set_sigfd_pending [] w1 = set_sigfd_pending [] w2 ->
  sigfd_drain env l w1 = sigfd_drain env l w2.
Proof.
  intros H. rewrite <- (sigfd_drain_pending_irrelevant env l [] w1), H.
  apply sigfd_drain_pending_irrelevant.
Qed.

(** Reads that are dispatched or retried leave the loop where it was,
    with their calls logged. *)
Lemma sigfd_drain_prefix env good tail w evs :
  sigfd_dispatched env (w_log w) (iothread_locked w) good = Some evs ->
  sigfd_drain env (good ++ tail) w = sigfd_drain env tail (set_log (w_log w ++ evs) w).
Proof.
  revert w evs. induction good as [|r good IH]; intros w evs Hd.
  - injection Hd as <-. rewrite app_nil_r. by destruct w.
  - cbn [sigfd_dispatched] in Hd. cbn [app sigfd_drain].
    unfold mbind at 1, M_bind, modify at 1. cbn beta iota.
    unfold is_interrupted in Hd.
    destruct ((rd_len r =? -1) && (rd_errno r =? EINTR)) eqn:Hi.
    + assert (sigfd_dispatched env (w_log (set_sigfd_pending (good ++ tail) w))
                (iothread_locked (set_sigfd_pending (good ++ tail) w)) good
              = Some evs) as Hd'.
      { clear IH. destruct w as [log0 lk ctx fds pfds npfds prio0 pes wo pend]. wsimpl. wsimpl in Hd. exact Hd. }
      rewrite (IH _ evs Hd').
      apply sigfd_drain_pending_eq. by destruct w.
    + destruct (is_full_record r) eqn:Hfull; [|done].
      destruct (fst (env_sigaction env (w_log w) (ssi_signo r)) =? 0) eqn:Hres; [|done].
      destruct (handler_callable _) eqn:Hcall; [|done].
      cbn [andb] in Hd.
      destruct (sigfd_dispatched env _ _ good) as [evs'|] eqn:Hd'; [|done].
      injection Hd as <-.
      unfold is_full_record in Hfull. apply Z.eqb_eq in Hfull.
      assert ((rd_len r =? -1) && (rd_errno r =? EAGAIN) = false) as ->.
      { rewrite Hfull. done. }
      rewrite Hfull. cbn [Z.eqb sizeof_info Pos.eqb negb].
      unfold sigaction, get, emit, modify, mbind, mret, M_bind, M_ret.
      cbn beta iota zeta.
      destruct w as [log0 lk ctx fds pfds npfds prio0 pes wo pend].
      wsimpl. wsimpl in Hres. wsimpl in Hd'. rewrite Hres. cbn [negb].
      unfold handler_call in Hd' |- *.
      destruct (negb (Z.land _ SA_SIGINFO =? 0) && negb (_ =? 0)).
      * erewrite IH; wsimpl.
        2:{ rewrite <- app_assoc. exact Hd'. }
        apply sigfd_drain_pending_eq.
        unfold set_log, set_sigfd_pending. wsimpl.
        rewrite <- ?app_assoc. done.
      * destruct (negb (sa_handler _ =? 0)).
        -- erewrite IH; wsimpl.
           2:{ rewrite <- app_assoc. exact Hd'. }
           apply sigfd_drain_pending_eq.
           unfold set_log, set_sigfd_pending. wsimpl.
        rewrite <- ?app_assoc. done.
        -- erewrite IH; wsimpl.
           2:{ exact Hd'. }
           apply sigfd_drain_pending_eq.
           unfold set_log, set_sigfd_pending. wsimpl.
        rewrite <- ?app_assoc. done.
Qed.

Lemma sigfd_drain_bad_read env r rest w :
  is_bad_read env (w_log w) r = true ->
  sigfd_drain env (r :: rest) w =
  (Ret tt,
   set_log (w_log w ++ bad_read_trace env (w_log w) (iothread_locked w) r)
           (set_sigfd_pending rest w)).
Proof.
  unfold is_bad_read, bad_read_trace. intros Hbad.
  apply andb_prop in Hbad as [Hbad Hlen].
  apply andb_prop in Hbad as [Hi Hb].
  apply negb_true_iff in Hi, Hb.
  cbn [sigfd_drain].
  unfold mbind at 1, M_bind, modify at 1. cbn beta iota.
  rewrite Hi, Hb.
  destruct (Z.eqb_spec (rd_len r) sizeof_info) as [Hl|Hl]; cbn [negb orb] in *.
  - unfold sigaction, get, emit, modify, mbind, mret, M_bind, M_ret.
    cbn beta iota zeta.
    destruct w as [log0 lk ctx fds pfds npfds prio0 pes wo pend].
    wsimpl. wsimpl in Hlen. rewrite Hlen. wsimpl.
    by rewrite <- app_assoc.
  - unfold emit, modify. by destruct w.
Qed.

(** C1, amended.  Wherever it comes in the queue of the descriptor --
    first, behind records that were dispatched, behind interrupted reads
    that were retried -- a read that is short or malformed, or a
    complete record whose handler query fails, makes [sigfd_handler]
    print a diagnostic and return normally: no handler is invoked for
    that record, the records behind it stay unread, and the process is
    not aborted. *)
Theorem sigfd_handler_bad_record_returns env fd w good r rest evs :
  sigfd_pending w = good ++ r :: rest ->
  sigfd_dispatched env (w_log w) (iothread_locked w) good = Some evs ->
  is_bad_read env (w_log w ++ evs) r = true ->
  sigfd_handler env fd w =
  (Ret tt,
   set_log (w_log w ++ evs
              ++ bad_read_trace env (w_log w ++ evs) (iothread_locked w) r)
           (set_sigfd_pending rest w)) /\
  handler_calls (bad_read_trace env (w_log w ++ evs) (iothread_locked w) r) = [].
Proof.
  intros Hp Hd Hbad. split.
  - unfold sigfd_handler, mbind at 1, M_bind, get at 1. cbn beta iota.
    rewrite Hp, (sigfd_drain_prefix env good (r :: rest) w evs Hd).
    rewrite sigfd_drain_bad_read by (by destruct w).
    destruct w. wsimpl. by rewrite <- app_assoc.
  - unfold bad_read_trace. by destruct (negb _).
Qed.

Lemma sigfd_handler_bad_record_returns_witness :
  sigfd_handler env_signals 3 world_short_read_behind =
  (Ret tt,
   set_log [(EvSigaction 14, true); (EvSaSigaction 77 14, true);
            (EvPrintf "read from sigfd returned %zd: %m\n" 5, true)]
           (set_sigfd_pending [mkReadResult 128 0 14] world_init)) /\
  handler_calls [(EvPrintf "read from sigfd returned %zd: %m\n" 5, true)] = [].
Proof.
  apply (sigfd_handler_bad_record_returns
           env_signals 3 world_short_read_behind
           [mkReadResult 128 0 14; mkReadResult (-1) 4 0]
           (mkReadResult 5 0 29) [mkReadResult 128 0 14]
           [(EvSigaction 14, true); (EvSaSigaction 77 14, true)]).
  - reflexivity.
  - reflexivity.
  - reflexivity.
Defined.

(** ** Async context facade *)

(** C9.  While [qemu_aio_context] is still null, [qemu_notify_event]
    returns normally, calls nothing and leaves the whole state as it
    was. *)
Theorem notify_before_init_is_noop w :
  qemu_aio_context w = 0 ->
  qemu_notify_event w = (Ret tt, w).
Proof.
  intros H. unfold qemu_notify_event, mbind, M_bind, get. by rewrite H.
Qed.

Lemma notify_before_init_is_noop_witness :
  qemu_notify_event world_init = (Ret tt, world_init).
Proof. apply notify_before_init_is_noop. reflexivity. Defined.


(** ** Timeouts *)

Lemma to_int32_range x : is_int32 (to_int32 x).
Proof.
  unfold is_int32, to_int32, INT32_MIN, INT32_MAX.
  pose proof (Z.mod_pos_bound x 4294967296 ltac:(lia)).
  destruct (Z.ltb_spec (x mod 4294967296) 2147483648); lia.
Qed.


Lemma to_uint32_small x : is_uint32 x -> to_uint32 x = x.
Proof. unfold is_uint32, UINT32_MAX, to_uint32. intros H. apply Z.mod_small. lia. Qed.

Lemma to_uint32_range x : is_uint32 (to_uint32 x).
Proof.
  unfold is_uint32, UINT32_MAX, to_uint32.
  pose proof (Z.mod_pos_bound x 4294967296 ltac:(lia)). lia.
Qed.

(** The assertion on the count passes exactly for the counts from 0 to
    the size of [poll_fds]. *)
Lemma to_size_t_assert n :
  0 <= n <= ARRAY_SIZE_poll_fds -> (to_size_t n <=? ARRAY_SIZE_poll_fds) = true.
Proof.
  unfold ARRAY_SIZE_poll_fds, to_size_t. intros H.
  rewrite Z.mod_small by lia. apply Z.leb_le. lia.
Qed.

Lemma to_size_t_assert_fails n :
  is_int32 n -> n < 0 \/ ARRAY_SIZE_poll_fds < n ->
  (to_size_t n <=? ARRAY_SIZE_poll_fds) = false.
Proof.
  unfold is_int32, INT32_MIN, INT32_MAX, ARRAY_SIZE_poll_fds, to_size_t.
  intros H [Hneg|Hbig]; apply Z.leb_gt.
  - replace n with ((n + 18446744073709551616) + (-1) * 18446744073709551616) by lia.
    rewrite Z.mod_add by lia. rewrite Z.mod_small by lia. lia.
  - rewrite Z.mod_small by lia. lia.
Qed.



Lemma select_fill_timeout_nonneg fw t : 0 <= t -> 0 <= select_fill_timeout fw t.
Proof.
  intros Ht. unfold select_fill_timeout, to_uint32.
  destruct (_ && _); [|done]. apply Z.mod_pos_bound. lia.
Qed.

(** ** Blocking wait, primary variant *)

Lemma posix_wait_run env timeout w :
  0 <= timeout ->
  0 <= to_int32 (q_n (query_at env w)) <= ARRAY_SIZE_poll_fds ->
  wp (os_host_main_loop_wait_posix env timeout)
     (fun ret w' =>
        let eff := select_fill_timeout (to_int32 (q_timeout (query_at env w))) timeout in
        exists nsel dispatched,
          w_log w' = w_log w ++
            posix_wait_trace (iothread_locked w) (env_prepare env (w_log w))
                             (to_int32 (q_n (query_at env w))) nsel eff dispatched /\
          iothread_locked w' = (if eff =? 0 then iothread_locked w else true))
     w.
Proof.
  unfold query_at.
  destruct w as [log0 lk ctx fds pfds npfds prio0 pes wo pend]. wsimpl.
  intros Ht0 Hq.
  pose proof (select_fill_timeout_nonneg
                (to_int32 (q_timeout (env_query env (log0 ++ [(EvContextPrepare, lk)])
                                                (env_prepare env log0))))
                timeout Ht0) as Hnn.
  wp_go.
  apply wp_assert. { by apply to_size_t_assert. }
  wp_go. unfold when, posix_wait_trace.
  match goal with
  | |- context [if ?t >? 0 then _ else _] => destruct (Z.gtb_spec t 0) as [Ht|Ht]
  end.
  - rewrite (proj2 (Z.eqb_neq _ 0)) by lia.
    wp_go. destruct (_ <? 0) eqn:Hr; simpl negb; cbv iota;
      wp_go; destruct (env_check _ _ _ _) eqn:Hc; wp_go;
      [eexists _, true | eexists _, false | eexists _, true | eexists _, false];
      (split; [|done]); rewrite <- ?app_assoc; simpl; reflexivity.
  - rewrite (proj2 (Z.eqb_eq _ 0)) by lia.
    wp_go. destruct (_ <? 0) eqn:Hr; simpl negb; cbv iota;
      wp_go; destruct (env_check _ _ _ _) eqn:Hc; wp_go;
      [eexists _, true | eexists _, false | eexists _, true | eexists _, false];
      (split; [|done]); rewrite <- ?app_assoc; simpl; reflexivity.
Qed.


Lemma posix_wait_trace_held prio n nsel eff dispatched :
  Forall (fun e => is_wait_bracket e.1 = false -> e.2 = true)
         (posix_wait_trace true prio n nsel eff dispatched).
Proof.
  unfold posix_wait_trace.
  destruct (eff =? 0), dispatched; simpl;
    repeat (constructor; [simpl; congruence|]); constructor.
Qed.

(** ** Blocking wait, alternate variant *)

Lemma run_polling_entries_spec env l ret w :
  run_polling_entries env l ret w =
  (Ret (polling_ret env (w_log w) (iothread_locked w) l ret),
   set_log (w_log w ++ polling_trace (iothread_locked w) l) w).
Proof.
  revert ret w. induction l as [|pe l IH]; intros ret w.
  - destruct w. cbn. by rewrite app_nil_r.
  - cbn [run_polling_entries]. unfold call_polling_func, get, emit, modify.
    unfold mbind, mret, M_bind, M_ret. cbn beta iota.
    rewrite IH. destruct w. cbn. by rewrite <- app_assoc.
Qed.

Lemma tail_inv_emit base e w :
  tail_inv base w -> (forall n t, e <> EvGPoll n t) ->
  tail_inv base (set_log (w_log w ++ [(e, iothread_locked w)]) w).
Proof.
  intros (Hl & evs & Hlog & Hq) He. split; [by destruct w|].
  exists (evs ++ [(e, true)]). split.
  - destruct w; cbn in *. subst. by rewrite app_assoc.
  - apply Forall_app. split; [done|]. by apply Forall_singleton.
Qed.

Lemma tail_inv_set_fds base s w :
  tail_inv base w -> tail_inv base (set_fds s w).
Proof. by destruct w. Qed.

Lemma tail_inv_set_wait_objects base x w :
  tail_inv base w -> tail_inv base (set_wait_objects x w).
Proof. by destruct w. Qed.

Lemma call_wait_object_inv base i w :
  tail_inv base w -> wp (call_wait_object i) (fun _ w' => tail_inv base w') w.
Proof.
  intros Hinv. unfold call_wait_object. wp_go_raw. unfold when.
  destruct (_ && _); wp_go_raw; [|done].
  by apply tail_inv_emit.
Qed.

Lemma check_and_dispatch_inv env base w :
  tail_inv base w -> wp (check_and_dispatch env) (fun _ w' => tail_inv base w') w.
Proof.
  intros Hinv. unfold check_and_dispatch. wp_go_raw. unfold when.
  destruct (env_check _ _ _ _); wp_go_raw.
  - apply (tail_inv_emit base EvContextDispatch); [|done].
    by apply (tail_inv_emit base (EvContextCheck _ _)).
  - by apply tail_inv_emit.
Qed.

Lemma win32_wait_run env timeout w :
  let held := iothread_locked w in
  let w1 := after_polling w in
  let ret0 := polling_ret env (w_log w) held (first_polling_entry w) 0 in
  (ret0 <> 0 -> os_host_main_loop_wait_win32 env timeout w = (Ret ret0, w1)) /\
  (ret0 = 0 ->
   0 <= to_int32 (q_n (query_at env w1)) <= ARRAY_SIZE_poll_fds ->
   wp (os_host_main_loop_wait_win32 env timeout)
      (fun ret w' =>
         tail_inv (w_log w1 ++
                   win32_wait_head held (env_prepare env (w_log w1))
                     (to_int32 (q_n (query_at env w1)) + num (wait_objects w))
                     (g_poll_timeout (to_int32 (q_timeout (query_at env w1))) timeout))
                  w' /\
         (ret = 0 \/ ret = 1))
      w).
Proof.
  intros held w1 ret0. split.
  - intros Hne. unfold os_host_main_loop_wait_win32.
    unfold mbind at 1 2, M_bind, get at 1. cbn beta iota.
    rewrite run_polling_entries_spec. fold held ret0.
    destruct (Z.eqb_spec ret0 0); [done|]. done.
  - intros H0 Hq. unfold os_host_main_loop_wait_win32.
    apply wp_bind, wp_get, wp_bind.
    apply wp_run. eexists _, _. split; [apply run_polling_entries_spec|].
    fold held ret0. rewrite H0. cbn [Z.eqb negb].
    subst w1 held. unfold query_at, after_polling in *.
    destruct w as [log0 lk ctx fds pfds npfds prio0 pes wo pend]. wsimpl.
    wsimpl in Hq. clear ret0 H0.
    wp_go. apply wp_assert. { by apply to_size_t_assert. }
    wp_go.
    match goal with |- wp _ _ ?w => set (w2 := w) end.
    match goal with |- context [tail_inv ?b] => set (base := b) end.
    assert (tail_inv base w2) as Hinv.
    { split; [done|]. exists []. split; [|constructor].
      subst w2 base. wsimpl. unfold win32_wait_head.
      by rewrite <- !app_assoc, app_nil_r. }
    clearbody w2 base.
    match goal with |- wp (if ?c then _ else _) _ _ => generalize c end.
    intros b.
    eapply (wp_mono _ (fun _ w' => tail_inv base w')).
    2:{ destruct b; [|done].
        apply wp_bind, wp_modify.
        apply wp_for_each.
        - by apply tail_inv_set_wait_objects.
        - intros i w' Hw'. by apply call_wait_object_inv. }
    intros ? w3 Hinv3. apply wp_bind.
    eapply wp_mono; [|by apply check_and_dispatch_inv].
    cbv beta. intros ? w4 Hinv4.
    apply wp_bind, wp_get, wp_bind.
    destruct (nfds (w_fds w4) >=? 0).
    + wp_go_raw. split; [|destruct (_ || _); auto].
      apply tail_inv_set_fds. by apply (tail_inv_emit base (EvSelect _ _)).
    + wp_go_raw. split; [done|]. destruct (_ || _); auto.
Qed.

Lemma g_poll_timeouts_app l1 l2 :
  g_poll_timeouts (l1 ++ l2) = g_poll_timeouts l1 ++ g_poll_timeouts l2.
Proof. apply omap_app. Qed.


Lemma g_poll_timeouts_polling held l : g_poll_timeouts (polling_trace held l) = [].
Proof. induction l as [|pe l IH]; [done|]. exact IH. Qed.


(** ** Claims about the blocking wait *)

Lemma after_polling_log w :
  w_log (after_polling w) =
  w_log w ++ polling_trace (iothread_locked w) (first_polling_entry w).
Proof. by destruct w. Qed.

Lemma posix_query_ok_count q w :
  posix_query_ok q w = true -> 0 <= to_int32 (q_n q) <= ARRAY_SIZE_poll_fds.
Proof.
  unfold posix_query_ok. intros H.
  repeat (apply andb_prop in H as [H ?]). lia.
Qed.

Lemma win32_query_ok_count q w :
  win32_query_ok q w -> 0 <= to_int32 (q_n q) <= ARRAY_SIZE_poll_fds.
Proof. unfold win32_query_ok, wait_objects_wf. lia. Qed.

Lemma env_query_bounded_count env w0 log prio :
  env_query_bounded env w0 ->
  0 <= to_int32 (q_n (env_query env log prio)) <= ARRAY_SIZE_poll_fds.
Proof.
  intros Hb. specialize (Hb log prio). destruct (WIN32 _).
  - by apply win32_query_ok_count in Hb.
  - by apply posix_query_ok_count in Hb.
Qed.






(** C7.  In the primary variant, entered with the lock held, for every
    answer of glib the variant can take (a count between 0 and the size
    of [poll_fds], descriptors that fit an [fd_set]): the run is
    fill, then the one [select], then poll and dispatch; the lock is
    released exactly when the effective timeout is non-zero, by a call
    placed right before [select], and taken back by a call placed right
    after it; every other call is made with the lock held, and the lock
    is held on return. *)
Theorem posix_wait_lock_discipline env timeout w :
  is_uint32 timeout ->
  iothread_locked w = true ->
  posix_query_ok (query_at env w) w = true ->
  exists ret w' nsel dispatched,
    os_host_main_loop_wait_posix env timeout w = (Ret ret, w') /\
    new_events w w' =
    posix_wait_trace true (env_prepare env (w_log w))
      (to_int32 (q_n (query_at env w))) nsel
      (select_fill_timeout (to_int32 (q_timeout (query_at env w))) timeout)
      dispatched /\
    Forall (fun e => is_wait_bracket e.1 = false -> e.2 = true) (new_events w w') /\
    iothread_locked w' = true.
Proof.
  intros Ht Hheld Hq. apply posix_query_ok_count in Hq.
  assert (0 <= timeout) as H0 by (unfold is_uint32 in Ht; lia).
  destruct (proj1 (wp_run _ _ _) (posix_wait_run env timeout w H0 Hq))
    as (ret & w' & Hrun & nsel & disp & Hlog & Hlock).
  rewrite Hheld in Hlog, Hlock.
  exists ret, w', nsel, disp. split; [done|].
  rewrite (new_events_app _ _ _ Hlog). split; [done|]. split.
  - apply posix_wait_trace_held.
  - by destruct (_ =? 0).
Qed.

Lemma posix_wait_lock_discipline_witness :
  exists ret w' nsel dispatched,
    os_host_main_loop_wait_posix env_sources 1500 world_init = (Ret ret, w') /\
    new_events world_init w' = posix_wait_trace true 0 3 nsel 1500 dispatched /\
    Forall (fun e => is_wait_bracket e.1 = false -> e.2 = true)
           (new_events world_init w') /\
    iothread_locked w' = true.
Proof.
  apply (posix_wait_lock_discipline env_sources 1500 world_init).
  - unfold is_uint32, UINT32_MAX. lia.
  - reflexivity.
  - reflexivity.
Defined.

(** C4, on the code.  Alternate variant, two iterations in a row: in the
    first the trailing zero-timeout [select] reports a ready descriptor
    (the iteration returns 1 although [g_poll] timed out), and the second
    still calls [g_poll] with the framework's 10 ms, not with 0. *)
Theorem win32_select_readiness_not_carried_over :
  fst (two_iterations env_socket_ready 0 0 world_init) = Ret (1, 1) /\
  select_tvargs (w_log (snd (two_iterations env_socket_ready 0 0 world_init)))
  = [Some tv0; Some tv0] /\
  g_poll_timeouts (w_log (snd (two_iterations env_socket_ready 0 0 world_init)))
  = [10; 10].
Proof. vm_compute. done. Qed.


(** ** Main-loop driver *)

(** Whichever variant is built, the wait returns and only appends to the
    log, provided glib stays within [poll_fds]. *)
Lemma os_host_main_loop_wait_returns env timeout w w0 :
  env_query_bounded env w0 -> 0 <= timeout ->
  exists ret w' evs,
    os_host_main_loop_wait env timeout w = (Ret ret, w') /\
    w_log w' = w_log w ++ evs.
Proof.
  intros Hb Ht. unfold os_host_main_loop_wait.
  destruct (WIN32 (env_config env)).
  - destruct (win32_wait_run env timeout w) as [Hne Heq].
    destruct (Z.eq_dec (polling_ret env (w_log w) (iothread_locked w)
                                    (first_polling_entry w) 0) 0) as [H0|H0].
    + destruct (proj1 (wp_run _ _ _)
                  (Heq H0 (env_query_bounded_count env w0 _ _ Hb)))
        as (ret & w' & Hrun & (_ & evs & Hlog & _) & _).
      rewrite after_polling_log, <- !app_assoc in Hlog. eauto.
    + eexists _, _, _. split; [by apply Hne|]. apply after_polling_log.
  - destruct (proj1 (wp_run _ _ _)
                (posix_wait_run env timeout w Ht (env_query_bounded_count env w0 _ _ Hb)))
      as (ret & w' & Hrun & nsel & disp & Hlog & _).
    eauto.
Qed.

(** C6.  With the network stack built in, and glib only ever giving
    answers the variant in use can take (a count between 0 and the size
    of [poll_fds]; descriptors that fit an [fd_set] in the primary
    variant; room left for the wait objects in the alternate one),
    every call of [main_loop_wait]: resets the descriptor
    sets; lets the network stack shrink the timeout and add descriptors;
    lets the device layer add descriptors; runs the blocking wait; hands
    the wait's result to the device layer, then to the network stack;
    then runs the timers, whatever the result was; and returns that
    result. *)
Theorem main_loop_wait_order env nonblocking w :
  CONFIG_SLIRP (env_config env) = true ->
  env_query_bounded env w ->
  let held := iothread_locked w in
  let t0 := if negb (nonblocking =? 0) then 0 else UINT32_MAX in
  let log1 := w_log w ++ [(EvSlirpUpdateTimeout t0, held)] in
  let log2 := log1 ++ [(EvSlirpSelectFill, held)] in
  let timeout := to_uint32 (env_slirp_update_timeout env (w_log w) t0) in
  let w1 :=
    set_fds (env_iohandler_fill env log2
               (env_slirp_select_fill env log1
                  (mkFdSets (-1) FD_ZERO FD_ZERO FD_ZERO)))
            (set_log (log2 ++ [(EvIohandlerFill, held)]) w) in
  exists ret w2 w3,
    os_host_main_loop_wait env timeout w1 = (Ret ret, w2) /\
    main_loop_wait env nonblocking w = (Ret ret, w3) /\
    new_events w w3 =
    [(EvSlirpUpdateTimeout t0, held); (EvSlirpSelectFill, held);
     (EvIohandlerFill, held)]
    ++ new_events w1 w2
    ++ [(EvIohandlerPoll ret, iothread_locked w2);
        (EvSlirpSelectPoll (ret <? 0), iothread_locked w2);
        (EvRunAllTimers, iothread_locked w2)].
Proof.
  intros Hslirp Hb held t0 log1 log2 timeout w1.
  assert (w_log w1 = w_log w ++
            [(EvSlirpUpdateTimeout t0, held); (EvSlirpSelectFill, held);
             (EvIohandlerFill, held)]) as Hlog1.
  { subst w1 log2 log1. destruct w; wsimpl. by rewrite <- !app_assoc. }
  assert (wp (main_loop_wait env nonblocking)
             (fun r w3 => exists w2 evs,
                os_host_main_loop_wait env timeout w1 = (Ret r, w2) /\
                w_log w2 = w_log w1 ++ evs /\
                w_log w3 = w_log w2 ++
                  [(EvIohandlerPoll r, iothread_locked w2);
                   (EvSlirpSelectPoll (r <? 0), iothread_locked w2);
                   (EvRunAllTimers, iothread_locked w2)]) w) as Hwp.
  { clear Hlog1. unfold main_loop_wait. rewrite Hslirp.
    subst w1 timeout log2 log1 t0 held.
    remember (os_host_main_loop_wait env) as W eqn:HW.
    destruct w as [log0 lk ctx fds pfds npfds prio0 pes wo pend].
    cbv zeta. wp_go.
    match goal with
    | |- wp (W ?t) _ ?w1 =>
        destruct (os_host_main_loop_wait_returns env t w1 _ Hb
                    ltac:(apply to_uint32_range))
          as (ret & w2 & evs & Hwait & Hlog2)
    end.
    rewrite <- HW in Hwait. unfold wp at 1. rewrite Hwait.
    unfold when. wp_go_raw.
    exists w2, evs. split; [exact Hwait|]. split; [exact Hlog2|].
    destruct w2; wsimpl. by rewrite <- !app_assoc. }
  apply wp_run in Hwp as (ret & w3 & Hmain & w2 & evs & Hwait & Hlog2 & Hlog3).
  exists ret, w2, w3. split; [done|]. split; [done|].
  rewrite (new_events_app w1 w2 evs Hlog2).
  apply new_events_app.
  rewrite Hlog3, Hlog2, Hlog1, <- !app_assoc. done.
Qed.

Lemma main_loop_wait_order_witness :
  exists ret w2 w3,
    os_host_main_loop_wait
      (env_idle (mkConfig false true)) 0
      (set_fds (mkFdSets (-1) FD_ZERO FD_ZERO FD_ZERO)
         (set_log [(EvSlirpUpdateTimeout 0, true); (EvSlirpSelectFill, true);
                   (EvIohandlerFill, true)] world_init))
    = (Ret ret, w2) /\
    main_loop_wait (env_idle (mkConfig false true)) 1 world_init = (Ret ret, w3) /\
    new_events world_init w3 =
    [(EvSlirpUpdateTimeout 0, true); (EvSlirpSelectFill, true);
     (EvIohandlerFill, true)]
    ++ new_events
         (set_fds (mkFdSets (-1) FD_ZERO FD_ZERO FD_ZERO)
            (set_log [(EvSlirpUpdateTimeout 0, true); (EvSlirpSelectFill, true);
                      (EvIohandlerFill, true)] world_init))
         w2
    ++ [(EvIohandlerPoll ret, iothread_locked w2);
        (EvSlirpSelectPoll (ret <? 0), iothread_locked w2);
        (EvRunAllTimers, iothread_locked w2)].
Proof.
  apply (main_loop_wait_order (env_idle (mkConfig false true)) 1 world_init).
  - reflexivity.
  - intros log prio. reflexivity.
Defined.


(** * Further properties *)

(** ** Registries *)

Lemma del_wait_object_spec h f o w :
  wait_objects_wf w ->
  wait_objects_wf (qemu_del_wait_object h f o w) /\
  wait_objects_entries (qemu_del_wait_object h f o w)
  = remove_first_handle h (wait_objects_entries w).
Proof.
  intros Hwf. rewrite remove_first_handle_find.
  destruct (list_find _ (wait_objects_entries w)) as [[k e]|] eqn:Hfind.
  - by apply (del_wait_object_present h f o w k e).
  - by rewrite del_wait_object_absent.
Qed.

Lemma remove_first_handle_app_fresh h l e :
  find_first_handle h l = None -> we_handle e = h ->
  remove_first_handle h (l ++ [e]) = l.
Proof.
  intros Hnone He. induction l as [|x l IH]; simpl in *.
  - by rewrite He, Z.eqb_refl.
  - destruct (we_handle x =? h); [done|]. by rewrite IH.
Qed.

Lemma del_polling_app_fresh f o (l : list PollingEntry) :
  polling_registered f o l = false ->
  qemu_del_polling_cb f o (l ++ [mkPollingEntry f o]) = l.
Proof.
  unfold polling_registered. induction l as [|pe l IH]; simpl.
  - by rewrite !Z.eqb_refl.
  - intros H. apply orb_false_elim in H as [-> H]. by rewrite IH.
Qed.

Lemma wf_num_entries w w' :
  wait_objects_wf w -> wait_objects_wf w' ->
  wait_objects_entries w' = wait_objects_entries w -> num w' = num w.
Proof.
  intros (Hn & _) (Hn' & _) He.
  apply (f_equal length) in He. rewrite !entries_length in He. lia.
Qed.

(** X1.  Registering and then unregistering is a round trip.  A polling
    callback that was not registered before is gone again and the list is
    as it was; a wait object whose handle was not in the table, added
    while there is room, is gone again: the table is well formed, its
    count and its live entries are as they were. *)
Theorem add_then_del_round_trip f o (l : list PollingEntry) h wf wo df do_ w :
  polling_registered f o l = false ->
  wait_objects_wf w ->
  num w < MAXIMUM_WAIT_OBJECTS ->
  find_first_handle h (wait_objects_entries w) = None ->
  qemu_del_polling_cb f o (snd (qemu_add_polling_cb f o l)) = l /\
  wait_objects_wf (qemu_del_wait_object h df do_ (snd (qemu_add_wait_object h wf wo w))) /\
  num (qemu_del_wait_object h df do_ (snd (qemu_add_wait_object h wf wo w))) = num w /\
  wait_objects_entries
    (qemu_del_wait_object h df do_ (snd (qemu_add_wait_object h wf wo w)))
  = wait_objects_entries w.
Proof.
  intros Hp Hwf Hroom Hfresh. split; [by apply del_polling_app_fresh|].
  destruct (add_wait_object_room h wf wo w Hwf Hroom) as (_ & Hwf' & He).
  destruct (del_wait_object_spec h df do_ _ Hwf') as (Hwf'' & Hd).
  assert (wait_objects_entries
            (qemu_del_wait_object h df do_ (snd (qemu_add_wait_object h wf wo w)))
          = wait_objects_entries w) as Heq.
  { rewrite Hd, He. by apply remove_first_handle_app_fresh. }
  split; [done|]. split; [|done]. by apply wf_num_entries.
Qed.

Lemma add_then_del_round_trip_witness :
  qemu_del_polling_cb 4 2 (snd (qemu_add_polling_cb 4 2 [mkPollingEntry 1 2])) =
  [mkPollingEntry 1 2] /\
  wait_objects_wf
    (qemu_del_wait_object 8 0 0 (snd (qemu_add_wait_object 8 40 41 wait_objects_three))) /\
  num (qemu_del_wait_object 8 0 0 (snd (qemu_add_wait_object 8 40 41 wait_objects_three)))
  = num wait_objects_three /\
  wait_objects_entries
    (qemu_del_wait_object 8 0 0 (snd (qemu_add_wait_object 8 40 41 wait_objects_three)))
  = wait_objects_entries wait_objects_three.
Proof.
  apply add_then_del_round_trip.
  - reflexivity.
  - unfold wait_objects_wf. vm_compute. repeat split; congruence.
  - vm_compute. reflexivity.
  - reflexivity.
Defined.

(** X2.  Well-formedness is an invariant of the table: whatever adds and
    removes are applied to a well-formed table, the count stays between 0
    and the capacity and the four arrays keep their size, so that every
    cell the two functions touch exists. *)
Theorem wait_objects_wf_invariant ops w :
  wait_objects_wf w -> wait_objects_wf (wait_run ops w).
Proof. intros Hwf. by destruct (wait_run_inv ops w Hwf). Qed.

Lemma wait_objects_wf_invariant_witness :
  wait_objects_wf
    (wait_run [WAdd 1 2 3; WDel 5 0 0; WDel 1 0 0; WDel 1 0 0] wait_objects_three).
Proof.
  apply wait_objects_wf_invariant.
  unfold wait_objects_wf. vm_compute. repeat split; congruence.
Defined.

(** X3.  Below capacity, adding a wait object succeeds: it returns 0,
    the count grows by one and the new entry, with an empty result mask,
    comes after the entries already there, which are unchanged. *)
Theorem add_wait_object_below_capacity handle func_ opaque_ w :
  wait_objects_wf w ->
  num w < MAXIMUM_WAIT_OBJECTS ->
  fst (qemu_add_wait_object handle func_ opaque_ w) = 0 /\
  num (snd (qemu_add_wait_object handle func_ opaque_ w)) = num w + 1 /\
  wait_objects_wf (snd (qemu_add_wait_object handle func_ opaque_ w)) /\
  wait_objects_entries (snd (qemu_add_wait_object handle func_ opaque_ w))
  = wait_objects_entries w ++ [mkWaitEntry handle func_ opaque_ 0].
Proof.
  intros Hwf Hroom.
  destruct (add_wait_object_room handle func_ opaque_ w Hwf Hroom) as (Hr & Hwf' & He).
  split; [done|]. split; [|done].
  unfold qemu_add_wait_object.
  destruct (Z.geb_spec (num w) MAXIMUM_WAIT_OBJECTS); [lia|done].
Qed.

Lemma add_wait_object_below_capacity_witness :
  fst (qemu_add_wait_object 8 40 41 wait_objects_three) = 0 /\
  num (snd (qemu_add_wait_object 8 40 41 wait_objects_three)) = 3 + 1 /\
  wait_objects_wf (snd (qemu_add_wait_object 8 40 41 wait_objects_three)) /\
  wait_objects_entries (snd (qemu_add_wait_object 8 40 41 wait_objects_three))
  = wait_objects_entries wait_objects_three ++ [mkWaitEntry 8 40 41 0].
Proof.
  apply add_wait_object_below_capacity.
  - unfold wait_objects_wf. vm_compute. repeat split; congruence.
  - vm_compute. reflexivity.
Defined.


(** ** Event-source fusion *)

Lemma wp_run_unit (m : M unit) (Q : World -> Prop) w :
  wp m (fun _ w' => Q w') w -> exists w', m w = (Ret tt, w') /\ Q w'.
Proof. intros H. apply wp_run in H as ([] & w' & ? & ?). eauto. Qed.

Lemma testbit_one k : Z.testbit 1 k = (k =? 0).
Proof.
  change 1 with (2 ^ 0). destruct (Z.ltb_spec k 0).
  - rewrite Z.testbit_neg_r by done. symmetry. apply Z.eqb_neq. lia.
  - rewrite Z.pow2_bits_eqb by lia. apply Z.eqb_sym.
Qed.

Lemma FD_ISSET_FD_SET fd fd' s :
  0 <= fd' -> FD_ISSET fd' (FD_SET fd s) = FD_ISSET fd' s || (fd =? fd').
Proof.
  intros H. unfold FD_ISSET, FD_SET.
  rewrite Z.lor_spec, Z.shiftl_spec, testbit_one by done.
  f_equal. destruct (Z.eqb_spec (fd' - fd) 0), (Z.eqb_spec fd fd'); lia.
Qed.

Lemma select_fill_step_sets s p fd :
  0 <= fd ->
  FD_ISSET fd (rfds (select_fill_step s p))
  = FD_ISSET fd (rfds s) || ((pfd_fd p =? fd) && wants_in p) /\
  FD_ISSET fd (wfds (select_fill_step s p))
  = FD_ISSET fd (wfds s) || ((pfd_fd p =? fd) && wants_out p) /\
  FD_ISSET fd (xfds (select_fill_step s p))
  = FD_ISSET fd (xfds s) || ((pfd_fd p =? fd) && wants_err p).
Proof.
  intros H. unfold select_fill_step, wants_in, wants_out, wants_err.
  destruct (negb (Z.land (pfd_events p) G_IO_IN =? 0)),
           (negb (Z.land (pfd_events p) G_IO_OUT =? 0)),
           (negb (Z.land (pfd_events p) G_IO_ERR =? 0));
    cbn [rfds wfds xfds nfds]; rewrite ?FD_ISSET_FD_SET by done;
    rewrite ?andb_true_r, ?andb_false_r, ?orb_false_r; done.
Qed.

Lemma select_fill_step_nfds s p :
  nfds (select_fill_step s p)
  = if wants_in p || wants_out p || wants_err p
    then Z.max (nfds s) (pfd_fd p) else nfds s.
Proof.
  unfold select_fill_step, wants_in, wants_out, wants_err.
  destruct (negb (Z.land (pfd_events p) G_IO_IN =? 0)),
           (negb (Z.land (pfd_events p) G_IO_OUT =? 0)),
           (negb (Z.land (pfd_events p) G_IO_ERR =? 0));
    cbn [rfds wfds xfds nfds orb]; lia.
Qed.

Lemma select_fill_fold_sets l s fd :
  0 <= fd ->
  FD_ISSET fd (rfds (fold_left select_fill_step l s))
  = FD_ISSET fd (rfds s) || watched wants_in fd l /\
  FD_ISSET fd (wfds (fold_left select_fill_step l s))
  = FD_ISSET fd (wfds s) || watched wants_out fd l /\
  FD_ISSET fd (xfds (fold_left select_fill_step l s))
  = FD_ISSET fd (xfds s) || watched wants_err fd l.
Proof.
  intros H. revert s. induction l as [|p l IH]; intros s.
  - cbn. by rewrite !orb_false_r.
  - cbn [fold_left watched existsb].
    destruct (IH (select_fill_step s p)) as (-> & -> & ->).
    destruct (select_fill_step_sets s p fd H) as (-> & -> & ->).
    by rewrite !orb_assoc.
Qed.

Lemma select_fill_fold_nfds l s :
  nfds s <= nfds (fold_left select_fill_step l s) /\
  forall p, p ∈ l -> wants_in p || wants_out p || wants_err p = true ->
            pfd_fd p <= nfds (fold_left select_fill_step l s).
Proof.
  revert s. induction l as [|p l IH]; intros s.
  - split; [done|]. intros p Hp. by apply elem_of_nil in Hp.
  - cbn [fold_left]. destruct (IH (select_fill_step s p)) as [Hle Hall].
    pose proof (select_fill_step_nfds s p) as Hstep.
    split.
    + destruct (_ || _); lia.
    + intros q Hq Hint. apply elem_of_cons in Hq as [->|Hq]; [|by apply Hall].
      rewrite Hint in Hstep. lia.
Qed.

(** The maximum the fill loop leaves is the one it found or the
    descriptor of a record with some interest. *)
Lemma select_fill_fold_nfds_attained l s :
  nfds (fold_left select_fill_step l s) = nfds s \/
  exists p, p ∈ l /\ wants_in p || wants_out p || wants_err p = true /\
            nfds (fold_left select_fill_step l s) = pfd_fd p.
Proof.
  revert s. induction l as [|p l IH]; intros s; [by left|].
  cbn [fold_left]. destruct (IH (select_fill_step s p)) as [->|(q & Hq & Hint & ->)].
  - rewrite select_fill_step_nfds.
    destruct (wants_in p || wants_out p || wants_err p) eqn:Hint; [|by left].
    destruct (Z.max_spec (nfds s) (pfd_fd p)) as [[_ ->]|[_ ->]]; [|by left].
    right. exists p. split; [by left|done].
  - right. exists q. split; [by right|done].
Qed.

(** The records glib wrote are the first of [poll_fds] after the query. *)
Lemma array_store_take {A} (src dst : list A) :
  (length src <= length dst)%nat -> take (length src) (array_store src dst) = src.
Proof.
  intros H. unfold array_store. rewrite take_take, Nat.min_l by done.
  by rewrite take_app_length.
Qed.

Lemma posix_query_ok_records q w :
  posix_query_ok q w = true ->
  take (Z.to_nat (to_int32 (q_n q))) (array_store (q_fds q) (poll_fds w)) = q_fds q.
Proof.
  unfold posix_query_ok. intros H.
  repeat (apply andb_prop in H as [H ?]).
  replace (Z.to_nat (to_int32 (q_n q))) with (length (q_fds q)) by lia.
  apply array_store_take. lia.
Qed.

(** X4.  What [glib_select_fill] does to the descriptor sets, when glib
    reports a count between 0 and the size of [poll_fds], that many
    records, and descriptors that fit an [fd_set]: the loop runs over
    exactly the records glib reported; a descriptor is in the read
    (write, error) set afterwards exactly when it was there before or
    glib reported a record for it with input (output, error) interest;
    the maximum descriptor never decreases, is at least every descriptor
    glib reported with some interest, and is either the maximum passed in
    or one of those descriptors. *)
Theorem glib_select_fill_sets env s cur_timeout w :
  posix_query_ok (query_at env w) w = true ->
  exists s' t' w',
    glib_select_fill env s cur_timeout w = (Ret (s', t'), w') /\
    n_poll_fds w' = to_int32 (q_n (query_at env w)) /\
    take (Z.to_nat (n_poll_fds w')) (poll_fds w') = q_fds (query_at env w) /\
    (forall fd, 0 <= fd < FD_SETSIZE ->
       let l := q_fds (query_at env w) in
       FD_ISSET fd (rfds s') = FD_ISSET fd (rfds s) || watched wants_in fd l /\
       FD_ISSET fd (wfds s') = FD_ISSET fd (wfds s) || watched wants_out fd l /\
       FD_ISSET fd (xfds s') = FD_ISSET fd (xfds s) || watched wants_err fd l) /\
    nfds s <= nfds s' /\
    (forall p, p ∈ q_fds (query_at env w) ->
               wants_in p || wants_out p || wants_err p = true ->
               pfd_fd p <= nfds s') /\
    (nfds s' = nfds s \/
     exists p, p ∈ q_fds (query_at env w) /\
               wants_in p || wants_out p || wants_err p = true /\
               nfds s' = pfd_fd p).
Proof.
  intros Hq.
  pose proof (posix_query_ok_count _ _ Hq) as Hn.
  pose proof (posix_query_ok_records _ _ Hq) as Hrec.
  cut (wp (glib_select_fill env s cur_timeout)
          (fun a w' =>
             n_poll_fds w' = to_int32 (q_n (query_at env w)) /\
             take (Z.to_nat (n_poll_fds w')) (poll_fds w') = q_fds (query_at env w) /\
             (forall fd, 0 <= fd < FD_SETSIZE ->
                let l := q_fds (query_at env w) in
                FD_ISSET fd (rfds a.1) = FD_ISSET fd (rfds s) || watched wants_in fd l /\
                FD_ISSET fd (wfds a.1) = FD_ISSET fd (wfds s) || watched wants_out fd l /\
                FD_ISSET fd (xfds a.1) = FD_ISSET fd (xfds s) || watched wants_err fd l) /\
             nfds s <= nfds a.1 /\
             (forall p, p ∈ q_fds (query_at env w) ->
                        wants_in p || wants_out p || wants_err p = true ->
                        pfd_fd p <= nfds a.1) /\
             (nfds a.1 = nfds s \/
              exists p, p ∈ q_fds (query_at env w) /\
                        wants_in p || wants_out p || wants_err p = true /\
                        nfds a.1 = pfd_fd p)) w).
  { intros H. apply wp_run in H as ([s' t'] & w' & Hrun & HP). by exists s', t', w'. }
  unfold query_at in *.
  destruct w as [log0 lk ctx fds pfds npfds prio0 pes wo pend].
  wsimpl in Hn. wsimpl in Hrec.
  wp_go. apply wp_assert. { by apply to_size_t_assert. }
  wp_go. rewrite Hrec. split; [done|]. split; [done|]. split; [|split; [|split]].
  - intros fd Hfd. apply select_fill_fold_sets. lia.
  - apply select_fill_fold_nfds.
  - apply select_fill_fold_nfds.
  - apply select_fill_fold_nfds_attained.
Qed.

Lemma glib_select_fill_sets_witness :
  exists s' t' w',
    glib_select_fill env_sources (mkFdSets (-1) 0 0 0) 0 world_init
    = (Ret (s', t'), w') /\
    n_poll_fds w' = 3 /\
    take (Z.to_nat (n_poll_fds w')) (poll_fds w') = sample_poll_fds /\
    (forall fd, 0 <= fd < FD_SETSIZE ->
       let l := sample_poll_fds in
       FD_ISSET fd (rfds s') = FD_ISSET fd 0 || watched wants_in fd l /\
       FD_ISSET fd (wfds s') = FD_ISSET fd 0 || watched wants_out fd l /\
       FD_ISSET fd (xfds s') = FD_ISSET fd 0 || watched wants_err fd l) /\
    -1 <= nfds s' /\
    (forall p, p ∈ sample_poll_fds ->
               wants_in p || wants_out p || wants_err p = true ->
               pfd_fd p <= nfds s') /\
    (nfds s' = -1 \/
     exists p, p ∈ sample_poll_fds /\
               wants_in p || wants_out p || wants_err p = true /\
               nfds s' = pfd_fd p).
Proof.
  apply (glib_select_fill_sets env_sources (mkFdSets (-1) 0 0 0) 0 world_init).
  reflexivity.
Defined.

Lemma testbit_pow2_const n k : 0 <= n -> Z.testbit (2 ^ n) k = (k =? n).
Proof.
  intros Hn. destruct (Z.ltb_spec k 0).
  - rewrite Z.testbit_neg_r by done. symmetry. apply Z.eqb_neq. lia.
  - rewrite Z.pow2_bits_eqb by lia. apply Z.eqb_sym.
Qed.

(** X5.  The result loop of [glib_select_poll] only ever adds to a
    record's result mask, and only these bits: input (bit 0) when the
    record asked for input and its descriptor is in the read set, output
    (bit 2) and error (bit 3) likewise for the write and error sets.
    The descriptor and the interest mask are left alone. *)
Theorem select_poll_step_bits s p k :
  pfd_fd (select_poll_step s p) = pfd_fd p /\
  pfd_events (select_poll_step s p) = pfd_events p /\
  Z.testbit (pfd_revents (select_poll_step s p)) k
  = Z.testbit (pfd_revents p) k
    || ((k =? 0) && wants_in p && FD_ISSET (pfd_fd p) (rfds s))
    || ((k =? 2) && wants_out p && FD_ISSET (pfd_fd p) (wfds s))
    || ((k =? 3) && wants_err p && FD_ISSET (pfd_fd p) (xfds s)).
Proof.
  split; [done|]. split; [done|].
  unfold select_poll_step, wants_in, wants_out, wants_err. cbn [pfd_revents].
  destruct (negb (Z.land (pfd_events p) G_IO_IN =? 0)),
           (negb (Z.land (pfd_events p) G_IO_OUT =? 0)),
           (negb (Z.land (pfd_events p) G_IO_ERR =? 0)),
           (FD_ISSET (pfd_fd p) (rfds s)), (FD_ISSET (pfd_fd p) (wfds s)),
           (FD_ISSET (pfd_fd p) (xfds s));
    cbn [andb]; unfold G_IO_IN, G_IO_OUT, G_IO_ERR;
    change 1 with (2 ^ 0); change 4 with (2 ^ 2); change 8 with (2 ^ 3);
    rewrite ?Z.lor_spec, ?testbit_pow2_const by lia;
    rewrite ?andb_true_r, ?andb_false_r, ?orb_false_r; done.
Qed.

(** X6.  [glib_select_poll] as a whole.  When the wait failed, no poll
    record is touched; otherwise the first [n_poll_fds] records go through
    the result loop and the others are left alone.  In both cases the
    framework is asked whether it has work, and dispatched when it says
    so: a failed wait does not suppress dispatch. *)
Theorem glib_select_poll_run env s err w :
  exists w',
    glib_select_poll env s err w = (Ret tt, w') /\
    (forall i,
       poll_fds w' !! i =
       (if negb err && bool_decide (i < Z.to_nat (n_poll_fds w))%nat
        then select_poll_step s <$> poll_fds w !! i
        else poll_fds w !! i)) /\
    new_events w w' =
    (EvContextCheck (max_priority w) (n_poll_fds w), iothread_locked w)
    :: (if env_check env (w_log w) (max_priority w)
                     (take (Z.to_nat (n_poll_fds w)) (poll_fds w'))
        then [(EvContextDispatch, iothread_locked w)] else []).
Proof.
  assert (forall (l : list GPollFD) n i,
             ((select_poll_step s <$> take n l) ++ drop n l) !! i
             = if bool_decide (i < n)%nat then select_poll_step s <$> l !! i else l !! i)
    as Hmap.
  { intros l n i. case_bool_decide as Hi.
    - destruct (decide (i < length l)%nat) as [Hl|Hl].
      + rewrite lookup_app_l by (rewrite length_fmap, length_take; lia).
        by rewrite list_lookup_fmap, lookup_take_lt.
      + rewrite (lookup_ge_None_2 l i) by lia. cbn.
        apply lookup_ge_None_2.
        rewrite length_app, length_fmap, length_take, length_drop. lia.
    - destruct (decide (n <= length l)%nat) as [Hl|Hl].
      + rewrite lookup_app_r by (rewrite length_fmap, length_take; lia).
        rewrite length_fmap, length_take, lookup_drop. f_equal. lia.
      + rewrite (lookup_ge_None_2 l i) by lia.
        apply lookup_ge_None_2.
        rewrite length_app, length_fmap, length_take, length_drop. lia. }
  apply wp_run_unit.
  destruct w as [log0 lk ctx fds pfds npfds prio0 pes wo pend].
  unfold glib_select_poll, when. destruct err; cbn [negb andb].
  - wp_go. unfold when. destruct (env_check _ _ _ _) eqn:Hc; wp_go;
      (split; [done|]); unfold new_events; wsimpl;
      rewrite <- ?app_assoc, drop_app_length; cbn; by rewrite ?Hc.
  - wp_go. unfold when. destruct (env_check _ _ _ _) eqn:Hc; wp_go;
      (split; [intros i; apply Hmap|]); unfold new_events; wsimpl;
      rewrite <- ?app_assoc, drop_app_length; cbn; by rewrite ?Hc.
Qed.


(** ** Signal bridge *)

Lemma handler_calls_app l1 l2 :
  handler_calls (l1 ++ l2) = handler_calls l1 ++ handler_calls l2.
Proof. apply omap_app. Qed.

Lemma handler_calls_of_call act signo held :
  handler_calls ((fun e => (e, held)) <$> handler_call act signo)
  = handler_call act signo.
Proof.
  unfold handler_call.
  destruct (_ && _); [done|]. by destruct (negb _).
Qed.

Lemma sigfd_drain_dispatches env tbl pending w :
  (forall log signo, env_sigaction env log signo = (0, tbl signo)) ->
  forallb (fun r => is_full_record r || is_interrupted r) pending = true ->
  wp (sigfd_drain env pending)
     (fun _ w' =>
        exists evs,
          w' = set_log (w_log w ++ evs) (set_sigfd_pending [] w) /\
          handler_calls evs = expected_handler_calls tbl pending /\
          forallb (fun e => negb (is_printf e.1)) evs = true)
     w.
Proof.
  intros Htbl. revert w. induction pending as [|r rest IH]; intros w Hall.
  - cbn [sigfd_drain]. apply wp_modify. exists []. destruct w. cbn.
    by rewrite app_nil_r.
  - cbn [forallb] in Hall. apply andb_prop in Hall as [Hr Hrest].
    cbn [sigfd_drain expected_handler_calls flat_map].
    apply wp_bind, wp_modify.
    fold (is_interrupted r).
    destruct (is_interrupted r) eqn:Hint.
    + assert (is_full_record r = false) as ->.
      { unfold is_interrupted, is_full_record, sizeof_info in *.
        apply andb_prop in Hint as [Hlen _]. apply Z.eqb_eq in Hlen.
        by rewrite Hlen. }
      eapply wp_mono; [|apply (IH _ Hrest)].
      intros ? w' (evs & -> & Hcalls & Hnp). exists evs. split; [|done].
      by destruct w.
    + rewrite orb_false_r in Hr. rewrite Hr.
      unfold is_full_record in Hr.
      assert ((rd_len r =? -1) && (rd_errno r =? EAGAIN) = false) as ->.
      { apply Z.eqb_eq in Hr. rewrite Hr. done. }
      rewrite Hr. cbn [negb].
      apply wp_bind. unfold sigaction. wp_go_raw. rewrite Htbl.
      cbn [fst snd Z.eqb negb]. apply wp_bind.
      set (w1 := set_log _ (set_sigfd_pending rest w)).
      apply (wp_mono _ (fun _ w2 =>
               w2 = set_log (w_log w1 ++
                             ((fun e => (e, iothread_locked w)) <$>
                              handler_call (tbl (ssi_signo r)) (ssi_signo r))) w1)).
      2:{ unfold handler_call. subst w1.
          destruct (negb (Z.land (sa_flags (tbl (ssi_signo r))) SA_SIGINFO =? 0)
                    && negb (sa_sigaction (tbl (ssi_signo r)) =? 0));
            [|destruct (negb (sa_handler (tbl (ssi_signo r)) =? 0))];
            wp_go_raw; destruct w; cbn; by rewrite ?app_nil_r. }
      intros ? w2 ->.
      eapply wp_mono; [|apply (IH _ Hrest)].
      intros ? w' (evs & -> & Hcalls & Hnp).
      exists ([(EvSigaction (ssi_signo r), iothread_locked w)]
              ++ ((fun e => (e, iothread_locked w)) <$>
                  handler_call (tbl (ssi_signo r)) (ssi_signo r))
              ++ evs).
      split; [|split].
      * subst w1. destruct w; cbn. by rewrite <- !app_assoc.
      * rewrite !handler_calls_app, handler_calls_of_call, Hcalls. done.
      * cbn [app forallb fst is_printf negb andb]. rewrite forallb_app.
        apply andb_true_intro. split; [|exact Hnp].
        unfold handler_call.
        destruct (negb (Z.land (sa_flags (tbl (ssi_signo r))) SA_SIGINFO =? 0)
                  && negb (sa_sigaction (tbl (ssi_signo r)) =? 0));
          [done|]. by destruct (negb _).
Qed.

Lemma handler_call_installed act signo :
  handler_installed act = true -> handler_call act signo = [handler_event act signo].
Proof.
  unfold handler_installed, handler_pointer, handler_call, handler_event, SIG_DFL.
  destruct (negb (Z.land (sa_flags act) SA_SIGINFO =? 0) && negb (sa_sigaction act =? 0));
    [done|].
  intros H. apply andb_prop in H as [H _]. by rewrite H.
Qed.

Lemma expected_handler_calls_installed tbl pending :
  forallb (fun r => negb (is_full_record r) || handler_installed (tbl (ssi_signo r)))
          pending = true ->
  expected_handler_calls tbl pending = one_call_per_record tbl pending.
Proof.
  induction pending as [|r rest IH]; [done|].
  cbn [forallb]. intros H. apply andb_prop in H as [Hr Hrest].
  cbn [expected_handler_calls one_call_per_record flat_map omap list_omap].
  fold (expected_handler_calls tbl rest). fold (one_call_per_record tbl rest).
  rewrite (IH Hrest).
  destruct (is_full_record r); [|done].
  cbn [negb orb] in Hr. by rewrite handler_call_installed.
Qed.

(** X7.  With a fixed table of dispositions whose query succeeds, a
    descriptor that holds only complete records (possibly with
    interrupted reads in between), and a function installed as handler
    of every signal queued (neither [SIG_DFL] nor [SIG_IGN]),
    [sigfd_handler] drains the descriptor and invokes exactly one
    handler per record, in queue order, with the record's signal number:
    in the extended form when the handler was installed with
    [SA_SIGINFO], else in the basic form.  An interrupted read is
    retried and neither loses nor repeats a signal; nothing is printed. *)
Theorem sigfd_handler_dispatches env tbl fd w :
  (forall log signo, env_sigaction env log signo = (0, tbl signo)) ->
  forallb (fun r => is_full_record r || is_interrupted r) (sigfd_pending w) = true ->
  forallb (fun r => negb (is_full_record r) || handler_installed (tbl (ssi_signo r)))
          (sigfd_pending w) = true ->
  exists evs,
    sigfd_handler env fd w
    = (Ret tt, set_log (w_log w ++ evs) (set_sigfd_pending [] w)) /\
    handler_calls evs = one_call_per_record tbl (sigfd_pending w) /\
    forallb (fun e => negb (is_printf e.1)) evs = true.
Proof.
  intros Htbl Hall Hinst.
  destruct (wp_run_unit _ _ _ (sigfd_drain_dispatches env tbl _ w Htbl Hall))
    as (w' & Hrun & evs & -> & Hcalls & Hnp).
  exists evs. split; [|split; [|done]].
  - unfold sigfd_handler, mbind, M_bind, get. exact Hrun.
  - by rewrite Hcalls, expected_handler_calls_installed.
Qed.

Lemma sigfd_handler_dispatches_witness :
  exists evs,
    sigfd_handler env_signals 3 world_signals
    = (Ret tt, set_log (w_log world_signals ++ evs)
                       (set_sigfd_pending [] world_signals)) /\
    handler_calls evs = [EvSaSigaction 77 14; EvSaHandler 55 29; EvSaSigaction 77 14] /\
    forallb (fun e => negb (is_printf e.1)) evs = true.
Proof.
  apply (sigfd_handler_dispatches env_signals sigaction_table 3 world_signals).
  - intros log signo. reflexivity.
  - reflexivity.
  - reflexivity.
Defined.


(** ** Blocking wait, alternate variant *)

Lemma polling_ret_zero env log held l r :
  polling_ret env log held l r = 0 <->
  r = 0 /\ forallb (fun x => x =? 0) (polling_results env log held l) = true.
Proof.
  revert log r. induction l as [|pe l IH]; intros log r; cbn.
  - tauto.
  - rewrite IH, Z.lor_eq_0_iff, andb_true_iff, Z.eqb_eq. tauto.
Qed.

Lemma polling_ret_fold env log held l r :
  polling_ret env log held l r = fold_left Z.lor (polling_results env log held l) r.
Proof.
  revert log r. induction l as [|pe l IH]; intros log r; [done|].
  cbn [polling_ret polling_results fold_left]. apply IH.
Qed.

(** X8.  In the alternate variant every polling callback is called, once
    and in list order, whatever the earlier ones returned; if one of them
    returns non-zero the wait is skipped: the function returns the OR of
    all the callbacks' results, which is not zero, at once, having called
    nothing else and changed nothing but the log. *)
Theorem win32_polling_short_circuit env timeout w :
  forallb (fun x => x =? 0)
          (polling_results env (w_log w) (iothread_locked w) (first_polling_entry w))
  = false ->
  let ret :=
    fold_left Z.lor
      (polling_results env (w_log w) (iothread_locked w) (first_polling_entry w)) 0 in
  ret <> 0 /\
  os_host_main_loop_wait_win32 env timeout w
  = (Ret ret,
     set_log (w_log w ++
              ((fun pe => (EvPollingFunc (pe_func pe) (pe_opaque pe), iothread_locked w))
                 <$> first_polling_entry w)) w).
Proof.
  intros Hsome ret. subst ret. rewrite <- polling_ret_fold.
  assert (polling_ret env (w_log w) (iothread_locked w) (first_polling_entry w) 0 <> 0)
    as Hne.
  { intros H0. apply polling_ret_zero in H0 as [_ H0]. congruence. }
  split; [done|].
  by destruct (win32_wait_run env timeout w) as [Hrun _]; apply Hrun.
Qed.

Lemma win32_polling_short_circuit_witness :
  2 <> 0 /\
  os_host_main_loop_wait_win32 env_polling_busy 1500 world_polling
  = (Ret 2, set_log [(EvPollingFunc 100 200, true)] world_polling).
Proof.
  apply (win32_polling_short_circuit env_polling_busy 1500 world_polling).
  reflexivity.
Defined.

Lemma settled_inv_emit base e w :
  settled_inv base w ->
  match e with
  | EvGPoll _ _ | EvMutexUnlockIothread => False
  | EvSelect _ tv => tv = Some tv0
  | _ => True
  end ->
  settled_inv base (set_log (w_log w ++ [(e, iothread_locked w)]) w).
Proof.
  intros (Hl & evs & Hlog & Hq) He. split; [by destruct w|].
  exists (evs ++ [(e, true)]). split.
  - destruct w; cbn in *. subst. by rewrite app_assoc.
  - apply Forall_app. split; [done|]. by apply Forall_singleton.
Qed.

Lemma settled_inv_set_fds base s w :
  settled_inv base w -> settled_inv base (set_fds s w).
Proof. by destruct w. Qed.

Lemma settled_inv_set_wait_objects base x w :
  settled_inv base w -> settled_inv base (set_wait_objects x w).
Proof. by destruct w. Qed.

Lemma call_wait_object_settled base i w :
  settled_inv base w -> wp (call_wait_object i) (fun _ w' => settled_inv base w') w.
Proof.
  intros Hinv. unfold call_wait_object. wp_go_raw. unfold when.
  destruct (_ && _); wp_go_raw; [|done].
  by apply settled_inv_emit.
Qed.

Lemma check_and_dispatch_settled env base w :
  settled_inv base w -> wp (check_and_dispatch env) (fun _ w' => settled_inv base w') w.
Proof.
  intros Hinv. unfold check_and_dispatch. wp_go_raw. unfold when.
  destruct (env_check _ _ _ _); wp_go_raw.
  - apply (settled_inv_emit base EvContextDispatch); [|done].
    by apply (settled_inv_emit base (EvContextCheck _ _)).
  - by apply settled_inv_emit.
Qed.

(** The alternate variant once its polling loop has returned 0. *)
Lemma win32_wait_run_settled env timeout w :
  polling_ret env (w_log w) (iothread_locked w) (first_polling_entry w) 0 = 0 ->
  0 <= to_int32 (q_n (query_at env (after_polling w))) <= ARRAY_SIZE_poll_fds ->
  wp (os_host_main_loop_wait_win32 env timeout)
     (fun ret w' =>
        settled_inv
          (w_log (after_polling w) ++
           win32_wait_head (iothread_locked w) (env_prepare env (w_log (after_polling w)))
             (to_int32 (q_n (query_at env (after_polling w))) + num (wait_objects w))
             (g_poll_timeout (to_int32 (q_timeout (query_at env (after_polling w))))
                             timeout))
          w' /\
        (ret = 0 \/ ret = 1))
     w.
Proof.
  intros H0 Hq. unfold os_host_main_loop_wait_win32.
  apply wp_bind, wp_get, wp_bind.
  apply wp_run. eexists _, _. split; [apply run_polling_entries_spec|].
  rewrite H0. cbn [Z.eqb negb].
  unfold query_at, after_polling in *.
  destruct w as [log0 lk ctx fds pfds npfds prio0 pes wo pend]. wsimpl.
  wsimpl in Hq. clear H0.
  wp_go. apply wp_assert. { by apply to_size_t_assert. }
  wp_go.
  match goal with |- wp _ _ ?w => set (w2 := w) end.
  match goal with |- context [settled_inv ?b] => set (base := b) end.
  assert (settled_inv base w2) as Hinv.
  { split; [done|]. exists []. split; [|constructor].
    subst w2 base. wsimpl. unfold win32_wait_head.
    by rewrite <- !app_assoc, app_nil_r. }
  clearbody w2 base.
  match goal with |- wp (if ?c then _ else _) _ _ => generalize c end.
  intros b.
  eapply (wp_mono _ (fun _ w' => settled_inv base w')).
  2:{ destruct b; [|done].
      apply wp_bind, wp_modify.
      apply wp_for_each.
      - by apply settled_inv_set_wait_objects.
      - intros i w' Hw'. by apply call_wait_object_settled. }
  intros ? w3 Hinv3. apply wp_bind.
  eapply wp_mono; [|by apply check_and_dispatch_settled].
  cbv beta. intros ? w4 Hinv4.
  apply wp_bind, wp_get, wp_bind.
  destruct (nfds (w_fds w4) >=? 0).
  + wp_go_raw. split; [|destruct (_ || _); auto].
    apply settled_inv_set_fds. by apply (settled_inv_emit base (EvSelect _ _)).
  + wp_go_raw. split; [done|]. destruct (_ || _); auto.
Qed.

(** X9.  In the alternate variant, when every polling callback returned
    0, the wait-object table is well formed and glib reports a count that
    is not negative and leaves room in [poll_fds] for the wait objects:
    after the polling callbacks come the framework query, then the
    release of the lock, [g_poll] and the reacquisition of the lock,
    whatever the timeout (zero included); everything after that is
    called with the lock held and is neither a release, nor another
    [g_poll], nor a [select] with a deadline other than zero.  The lock
    is held on return and the value returned is 0 or 1. *)
Theorem win32_wait_lock_bracket env timeout w :
  forallb (fun x => x =? 0)
          (polling_results env (w_log w) (iothread_locked w) (first_polling_entry w))
  = true ->
  win32_query_ok (query_at env (after_polling w)) w ->
  exists ret w' evs,
    os_host_main_loop_wait_win32 env timeout w = (Ret ret, w') /\
    new_events w w' =
    polling_trace (iothread_locked w) (first_polling_entry w)
    ++ [(EvContextPrepare, iothread_locked w);
        (EvContextQuery (env_prepare env (w_log (after_polling w))), iothread_locked w);
        (EvMutexUnlockIothread, iothread_locked w);
        (EvGPoll (to_int32 (q_n (query_at env (after_polling w))) + num (wait_objects w))
                 (g_poll_timeout (to_int32 (q_timeout (query_at env (after_polling w))))
                                 timeout),
         false);
        (EvMutexLockIothread, false)]
    ++ evs /\
    settled evs /\
    iothread_locked w' = true /\
    (ret = 0 \/ ret = 1).
Proof.
  intros Hzero Hq. apply win32_query_ok_count in Hq.
  assert (polling_ret env (w_log w) (iothread_locked w) (first_polling_entry w) 0 = 0)
    as H0 by (by apply polling_ret_zero).
  destruct (proj1 (wp_run _ _ _) (win32_wait_run_settled env timeout w H0 Hq))
    as (ret & w' & Hrun & (Hlock & evs & Hlog & Hs) & Hret).
  exists ret, w', evs. split; [done|]. split; [|done].
  apply new_events_app.
  rewrite Hlog, after_polling_log, <- !app_assoc. done.
Qed.

Lemma win32_wait_lock_bracket_witness :
  exists ret w' evs,
    os_host_main_loop_wait_win32 (env_idle (mkConfig true true)) 0 world_polling
    = (Ret ret, w') /\
    new_events world_polling w' =
    [(EvPollingFunc 100 200, true)]
    ++ [(EvContextPrepare, true); (EvContextQuery 0, true);
        (EvMutexUnlockIothread, true); (EvGPoll 0 0, false);
        (EvMutexLockIothread, false)]
    ++ evs /\
    settled evs /\
    iothread_locked w' = true /\
    (ret = 0 \/ ret = 1).
Proof.
  apply (win32_wait_lock_bracket (env_idle (mkConfig true true)) 0 world_polling).
  - reflexivity.
  - unfold win32_query_ok, wait_objects_wf. vm_compute. repeat split; congruence.
Defined.

Lemma wait_object_calls_cons w held i ixs :
  wait_object_calls w held (i :: ixs)
  = (if negb (revents w !!! i =? 0) && negb (func w !!! i =? 0)
     then [(EvWaitObjectFunc (func w !!! i) (opaque w !!! i), held)] else [])
    ++ wait_object_calls w held ixs.
Proof.
  unfold wait_object_calls. cbn [omap list_omap].
  by destruct (negb (revents w !!! i =? 0) && negb (func w !!! i =? 0)).
Qed.

(** X10.  The callback loop over the wait objects calls, in table order,
    the callback of every entry whose result mask is non-zero and whose
    callback is non-null, with the entry's opaque pointer; it skips the
    others and changes nothing but the log. *)
Theorem wait_object_callbacks_in_order n w :
  for_each (seq 0 n) call_wait_object w
  = (Ret tt,
     set_log (w_log w ++
              wait_object_calls (wait_objects w) (iothread_locked w) (seq 0 n)) w).
Proof.
  generalize (seq 0 n). intros ixs. revert w.
  induction ixs as [|i ixs IH]; intros w.
  - destruct w. cbn. by rewrite app_nil_r.
  - cbn [for_each]. rewrite wait_object_calls_cons.
    unfold mbind at 1, M_bind, call_wait_object at 1, when, get, emit, modify.
    unfold mbind at 1, M_bind. cbn beta iota.
    destruct (negb (revents (wait_objects w) !!! i =? 0)
              && negb (func (wait_objects w) !!! i =? 0)).
    + rewrite IH. destruct w as [log0 lk ctx fds pfds npfds prio0 pes wo pend].
      cbn. by rewrite <- app_assoc.
    + unfold mret, M_ret. rewrite IH. done.
Qed.


(** ** Wait objects in the poll array *)

Lemma to_poll_fds_fold w n (fds : list GPollFD) m :
  0 <= n -> (Z.to_nat n + m <= length fds)%nat ->
  length (fold_left (to_poll_fds_step w n) (seq 0 m) fds) = length fds /\
  forall j,
    fold_left (to_poll_fds_step w n) (seq 0 m) fds !!! j =
    if decide (Z.to_nat n <= j < Z.to_nat n + m)%nat
    then mkGPollFD (events w !!! (j - Z.to_nat n)%nat) G_IO_IN (pfd_revents (fds !!! j))
    else fds !!! j.
Proof.
  intros Hn. induction m as [|m IH]; intros Hlen.
  - split; [done|]. intros j. cbn. case_decide; [lia|done].
  - destruct IH as [IHl IHj]; [lia|].
    rewrite seq_S, fold_left_app. cbn [fold_left Nat.add].
    unfold to_poll_fds_step at 1 3.
    replace (Z.to_nat (n + Z.of_nat m)) with (Z.to_nat n + m)%nat by lia.
    split; [by rewrite length_insert|].
    intros j. destruct (decide (j = Z.to_nat n + m)%nat) as [->|Hne].
    + rewrite list_lookup_total_insert_eq by lia.
      rewrite IHj, decide_False, decide_True by lia.
      do 2 f_equal. lia.
    + rewrite list_lookup_total_insert_ne by done.
      rewrite IHj. repeat case_decide; try lia; done.
Qed.

(** X11.  Appending the wait objects to [poll_fds] after glib's [n]
    records, when they fit: the array keeps its size; glib's records and
    everything behind the appended ones are untouched; record [n + i]
    carries the handle of entry [i] with input interest, its result mask
    left as it was. *)
Theorem wait_objects_poll_records w n (fds : list GPollFD) :
  0 <= n -> 0 <= num w -> n + num w <= Z.of_nat (length fds) ->
  length (wait_objects_to_poll_fds w n fds) = length fds /\
  (forall j, (j < Z.to_nat n)%nat \/ (Z.to_nat (n + num w) <= j)%nat ->
             wait_objects_to_poll_fds w n fds !!! j = fds !!! j) /\
  (forall i, (i < Z.to_nat (num w))%nat ->
             wait_objects_to_poll_fds w n fds !!! (Z.to_nat n + i)%nat
             = mkGPollFD (events w !!! i) G_IO_IN
                         (pfd_revents (fds !!! (Z.to_nat n + i)%nat))).
Proof.
  intros Hn Hnum Hfit.
  destruct (to_poll_fds_fold w n fds (Z.to_nat (num w)) Hn) as [Hl Hj]; [lia|].
  change (wait_objects_to_poll_fds w n fds)
    with (fold_left (to_poll_fds_step w n) (seq 0 (Z.to_nat (num w))) fds).
  split; [done|]. split.
  - intros j Hout. rewrite Hj, decide_False by lia. done.
  - intros i Hi. rewrite Hj, decide_True by lia. do 2 f_equal. lia.
Qed.

Lemma wait_objects_poll_records_witness :
  length (wait_objects_to_poll_fds wait_objects_three 3 (poll_fds world_init))
  = length (poll_fds world_init) /\
  (forall j, (j < Z.to_nat 3)%nat \/ (Z.to_nat (3 + num wait_objects_three) <= j)%nat ->
             wait_objects_to_poll_fds wait_objects_three 3 (poll_fds world_init) !!! j
             = poll_fds world_init !!! j) /\
  (forall i, (i < Z.to_nat (num wait_objects_three))%nat ->
             wait_objects_to_poll_fds wait_objects_three 3 (poll_fds world_init)
               !!! (Z.to_nat 3 + i)%nat
             = mkGPollFD (events wait_objects_three !!! i) G_IO_IN
                         (pfd_revents (poll_fds world_init !!! (Z.to_nat 3 + i)%nat))).
Proof.
  apply (wait_objects_poll_records wait_objects_three 3 (poll_fds world_init)).
  - lia.
  - vm_compute. discriminate.
  - vm_compute. discriminate.
Defined.

Lemma copy_revents_fold n (fds : list GPollFD) w m :
  0 <= n -> (m <= length (revents w))%nat ->
  let w' := fold_left (copy_revents_step n fds) (seq 0 m) w in
  num w' = num w /\ events w' = events w /\ func w' = func w /\ opaque w' = opaque w /\
  length (revents w') = length (revents w) /\
  forall i, revents w' !!! i =
            if decide (i < m)%nat then pfd_revents (fds !!! (Z.to_nat n + i)%nat)
            else revents w !!! i.
Proof.
  intros Hn. induction m as [|m IH]; intros Hlen.
  - cbn. repeat split; try done; intros i; case_decide; (lia || done).
  - destruct IH as (IH1 & IH2 & IH3 & IH4 & IH5 & IH6); [lia|].
    cbn zeta in *. rewrite seq_S, fold_left_app. cbn [fold_left Nat.add].
    set (F := fold_left _ (seq 0 m) w) in *.
    unfold copy_revents_step. cbn [num events func opaque revents].
    replace (Z.to_nat (n + Z.of_nat m)) with (Z.to_nat n + m)%nat by lia.
    do 4 (split; [done|]). split; [by rewrite length_insert|].
    intros i. destruct (decide (i = m)) as [->|Hne].
    +
 rewrite list_lookup_total_insert_eq by lia. by rewrite decide_True by lia.
    + rewrite list_lookup_total_insert_ne by done.
      rewrite IH6. repeat case_decide; try lia; done.
Qed.

Lemma store_revents_lookup rs (l : list GPollFD) :
  length (store_revents rs l) = length l /\
  forall j,
    store_revents rs l !!! j =
    if decide (j < length rs /\ j < length l)%nat
    then mkGPollFD (pfd_fd (l !!! j)) (pfd_events (l !!! j)) (rs !!! j)
    else l !!! j.
Proof.
  revert l. induction rs as [|r rs IH]; intros l.
  - split; [by destruct l|]. intros j. destruct l; cbn; case_decide; (lia || done).
  - destruct l as [|p l]; [split; [done|]; intros j; cbn; case_decide; (lia || done)|].
    destruct (IH l) as [IHl IHj]. cbn [store_revents]. split; [cbn; lia|].
    intros [|j]; cbn [length].
    + rewrite decide_True by lia. done.
    + change ((?x :: ?t) !!! S j) with (t !!! j).
      rewrite IHj. repeat case_decide; try lia; done.
Qed.

(** X12.  The result masks come back to the right entries.  When the
    wait objects have been appended after glib's [n] records, [g_poll]
    has reported the masks [rs] for the [n + num] records it was given,
    and the masks are copied back: entry [i] of the table holds the mask
    reported for record [n + i]; handles, callbacks, opaque pointers and
    the count are unchanged and the table is still well formed. *)
Theorem wait_object_results_round_trip w n (fds : list GPollFD) rs :
  wait_objects_wf w ->
  0 <= n -> n + num w <= Z.of_nat (length fds) ->
  (Z.to_nat (n + num w) <= length rs)%nat ->
  let polled :=
    store_revents (take (Z.to_nat (n + num w)) rs) (wait_objects_to_poll_fds w n fds) in
  let w' := wait_objects_copy_revents n polled w in
  wait_objects_wf w' /\
  num w' = num w /\ events w' = events w /\ func w' = func w /\ opaque w' = opaque w /\
  forall i, (i < Z.to_nat (num w))%nat ->
            revents w' !!! i = rs !!! (Z.to_nat n + i)%nat.
Proof.
  intros Hwf Hn Hfit Hrs polled w'.
  pose proof Hwf as (Hnum & Hl1 & Hl2 & Hl3 & Hl4).
  unfold MAXIMUM_WAIT_OBJECTS in *.
  destruct (copy_revents_fold n polled w (Z.to_nat (num w)) Hn)
    as (E1 & E2 & E3 & E4 & E5 & E6); [lia|].
  change (fold_left (copy_revents_step n polled) (seq 0 (Z.to_nat (num w))) w)
    with w' in *.
  split.
  { unfold wait_objects_wf, MAXIMUM_WAIT_OBJECTS. rewrite E1, E2, E3, E4, E5. done. }
  do 4 (split; [done|]).
  intros i Hi. rewrite E6, decide_True by done.
  destruct (to_poll_fds_fold w n fds (Z.to_nat (num w)) Hn ltac:(lia)) as (Hlen & _).
  change (fold_left (to_poll_fds_step w n) (seq 0 (Z.to_nat (num w))) fds)
    with (wait_objects_to_poll_fds w n fds) in Hlen.
  subst polled.
  destruct (store_revents_lookup (take (Z.to_nat (n + num w)) rs)
                                 (wait_objects_to_poll_fds w n fds)) as [_ Hj].
  rewrite Hj, decide_True by (rewrite length_take, Hlen; lia).
  cbn [pfd_revents]. rewrite lookup_total_take, decide_True by lia. done.
Qed.


Lemma wait_object_results_round_trip_witness :
  let polled :=
    store_revents (take (Z.to_nat (2 + num wait_objects_three)) [0; 0; 1; 0; 4])
                  (wait_objects_to_poll_fds wait_objects_three 2 (poll_fds world_init)) in
  let w' := wait_objects_copy_revents 2 polled wait_objects_three in
  wait_objects_wf w' /\
  num w' = num wait_objects_three /\ events w' = events wait_objects_three /\
  func w' = func wait_objects_three /\ opaque w' = opaque wait_objects_three /\
  forall i, (i < Z.to_nat (num wait_objects_three))%nat ->
            revents w' !!! i = [0; 0; 1; 0; 4] !!! (Z.to_nat 2 + i)%nat.
Proof.
  apply (wait_object_results_round_trip wait_objects_three 2 (poll_fds world_init)
                                        [0; 0; 1; 0; 4]).
  - unfold wait_objects_wf. vm_compute. repeat split; congruence.
  - lia.
  - vm_compute. discriminate.
  - vm_compute. lia.
Defined.

(** ** Overflow of the poll array *)

Lemma wp_abort_bind_ret {A B} (m : M A) (k : A -> M B) Q w :
  wp m (fun a w' => wp_abort (k a) Q w') w -> wp_abort (m ≫= k) Q w.
Proof.
  unfold wp, wp_abort, mbind, M_bind. destruct (m w) as [[a|] w']; done.
Qed.

Lemma wp_abort_bind {A B} (m : M A) (k : A -> M B) Q w :
  wp_abort m Q w -> wp_abort (m ≫= k) Q w.
Proof.
  unfold wp_abort, mbind, M_bind. destruct (m w) as [[a|] w']; done.
Qed.

Lemma wp_abort_assert b (Q : World -> Prop) w :
  b = false -> Q w -> wp_abort (g_assert b) Q w.
Proof. by intros ->. Qed.

Lemma wp_abort_run {A} (m : M A) Q w :
  wp_abort m Q w -> exists w', m w = (Abort, w') /\ Q w'.
Proof. unfold wp_abort. destruct (m w) as [[a|] w']; [done|eauto]. Qed.

(** The assertion on the count, when it fails: the process ends right
    after the framework query. *)
Lemma wait_assert_fails env timeout w :
  to_int32 (q_n (query_at env w)) < 0
  \/ ARRAY_SIZE_poll_fds < to_int32 (q_n (query_at env w)) ->
  polling_ret env (w_log w) (iothread_locked w) (first_polling_entry w) 0 = 0 ->
  to_int32 (q_n (query_at env (after_polling w))) < 0
  \/ ARRAY_SIZE_poll_fds < to_int32 (q_n (query_at env (after_polling w))) ->
  (exists w',
     os_host_main_loop_wait_posix env timeout w = (Abort, w') /\
     new_events w w'
     = [(EvContextPrepare, iothread_locked w);
        (EvContextQuery (env_prepare env (w_log w)), iothread_locked w)] /\
     iothread_locked w' = iothread_locked w) /\
  (exists w',
     os_host_main_loop_wait_win32 env timeout w = (Abort, w') /\
     new_events w w'
     = polling_trace (iothread_locked w) (first_polling_entry w)
       ++ [(EvContextPrepare, iothread_locked w);
           (EvContextQuery (env_prepare env (w_log (after_polling w))),
            iothread_locked w)] /\
     iothread_locked w' = iothread_locked w).
Proof.
  intros Hq H0 Hq'. split.
  - apply wp_abort_run. unfold query_at in Hq. clear H0 Hq'.
    destruct w as [log0 lk ctx fds pfds npfds prio0 pes wo pend]. wsimpl in Hq.
    unfold os_host_main_loop_wait_posix.
    apply wp_abort_bind_ret, wp_get. wsimpl.
    apply wp_abort_bind. unfold glib_select_fill.
    apply wp_abort_bind_ret. wp_go.
    apply wp_abort_bind_ret. wp_go.
    apply wp_abort_bind_ret. wp_go.
    apply wp_abort_bind, wp_abort_assert.
    { apply to_size_t_assert_fails; [apply to_int32_range|done]. }
    split; [|done]. unfold new_events. wsimpl.
    by rewrite <- app_assoc, drop_app_length.
  - apply wp_abort_run. unfold query_at, after_polling in Hq'. clear Hq.
    unfold os_host_main_loop_wait_win32.
    apply wp_abort_bind_ret, wp_get. apply wp_abort_bind_ret.
    apply wp_run. eexists _, _. split; [apply run_polling_entries_spec|].
    rewrite H0. cbn [Z.eqb negb].
    destruct w as [log0 lk ctx fds pfds npfds prio0 pes wo pend]. wsimpl.
    wsimpl in Hq'.
    apply wp_abort_bind_ret. wp_go.
    apply wp_abort_bind_ret. wp_go.
    apply wp_abort_bind_ret. wp_go.
    apply wp_abort_bind, wp_abort_assert.
    { apply to_size_t_assert_fails; [apply to_int32_range|done]. }
    split; [|done]. unfold new_events. wsimpl.
    by rewrite <- !app_assoc, drop_app_length.
Qed.

(** X13.  When glib reports more pending sources than [poll_fds] holds,
    the assertion ends the process in either variant, right after the
    framework query: no lock is released and no wait is started. *)
Theorem wait_aborts_on_overflow env timeout w :
  ARRAY_SIZE_poll_fds < to_int32 (q_n (query_at env w)) ->
  polling_ret env (w_log w) (iothread_locked w) (first_polling_entry w) 0 = 0 ->
  ARRAY_SIZE_poll_fds < to_int32 (q_n (query_at env (after_polling w))) ->
  (exists w',
     os_host_main_loop_wait_posix env timeout w = (Abort, w') /\
     new_events w w'
     = [(EvContextPrepare, iothread_locked w);
        (EvContextQuery (env_prepare env (w_log w)), iothread_locked w)] /\
     iothread_locked w' = iothread_locked w) /\
  (exists w',
     os_host_main_loop_wait_win32 env timeout w = (Abort, w') /\
     new_events w w'
     = polling_trace (iothread_locked w) (first_polling_entry w)
       ++ [(EvContextPrepare, iothread_locked w);
           (EvContextQuery (env_prepare env (w_log (after_polling w))),
            iothread_locked w)] /\
     iothread_locked w' = iothread_locked w).
Proof.
  intros Hq H0 Hq'. apply wait_assert_fails; [by right|done|by right].
Qed.

Lemma wait_aborts_on_overflow_witness :
  (exists w',
     os_host_main_loop_wait_posix (env_overflow (mkConfig false true)) 0 world_polling
     = (Abort, w') /\
     new_events world_polling w' = [(EvContextPrepare, true); (EvContextQuery 0, true)] /\
     iothread_locked w' = true) /\
  (exists w',
     os_host_main_loop_wait_win32 (env_overflow (mkConfig false true)) 0 world_polling
     = (Abort, w') /\
     new_events world_polling w'
     = [(EvPollingFunc 100 200, true)]
       ++ [(EvContextPrepare, true); (EvContextQuery 0, true)] /\
     iothread_locked w' = true).
Proof.
  apply (wait_aborts_on_overflow (env_overflow (mkConfig false true)) 0 world_polling).
  - vm_compute. reflexivity.
  - reflexivity.
  - vm_compute. reflexivity.
Defined.

(** X21.  The assertion compares the signed count with an unsigned size,
    so a negative count from glib fails it as well: the process ends in
    either variant, right after the framework query, with no lock
    released and no wait started. *)
Theorem wait_aborts_on_negative_count env timeout w :
  to_int32 (q_n (query_at env w)) < 0 ->
  polling_ret env (w_log w) (iothread_locked w) (first_polling_entry w) 0 = 0 ->
  to_int32 (q_n (query_at env (after_polling w))) < 0 ->
  (exists w',
     os_host_main_loop_wait_posix env timeout w = (Abort, w') /\
     new_events w w'
     = [(EvContextPrepare, iothread_locked w);
        (EvContextQuery (env_prepare env (w_log w)), iothread_locked w)] /\
     iothread_locked w' = iothread_locked w) /\
  (exists w',
     os_host_main_loop_wait_win32 env timeout w = (Abort, w') /\
     new_events w w'
     = polling_trace (iothread_locked w) (first_polling_entry w)
       ++ [(EvContextPrepare, iothread_locked w);
           (EvContextQuery (env_prepare env (w_log (after_polling w))),
            iothread_locked w)] /\
     iothread_locked w' = iothread_locked w).
Proof.
  intros Hq H0 Hq'. apply wait_assert_fails; [by left|done|by left].
Qed.

Lemma wait_aborts_on_negative_count_witness :
  (exists w',
     os_host_main_loop_wait_posix (env_negative_count (mkConfig false true)) 0 world_polling
     = (Abort, w') /\
     new_events world_polling w' = [(EvContextPrepare, true); (EvContextQuery 0, true)] /\
     iothread_locked w' = true) /\
  (exists w',
     os_host_main_loop_wait_win32 (env_negative_count (mkConfig false true)) 0 world_polling
     = (Abort, w') /\
     new_events world_polling w'
     = [(EvPollingFunc 100 200, true)]
       ++ [(EvContextPrepare, true); (EvContextQuery 0, true)] /\
     iothread_locked w' = true).
Proof.
  apply (wait_aborts_on_negative_count
           (env_negative_count (mkConfig false true)) 0 world_polling).
  - vm_compute. reflexivity.
  - reflexivity.
  - vm_compute. reflexivity.
Defined.



(** ** The driver as a whole *)

Lemma select_tvargs_app l1 l2 :
  select_tvargs (l1 ++ l2) = select_tvargs l1 ++ select_tvargs l2.
Proof. apply omap_app. Qed.

Lemma select_tvargs_polling held l : select_tvargs (polling_trace held l) = [].
Proof. induction l as [|pe l IH]; [done|]. exact IH. Qed.

Lemma settled_timeouts evs :
  settled evs ->
  g_poll_timeouts evs = [] /\ Forall (fun tv => tv = Some tv0) (select_tvargs evs).
Proof.
  induction 1 as [|[e b] evs [_ He] _ [IH1 IH2]]; [by split|].
  destruct e; try (split; [exact IH1|exact IH2]); try done.
  split; [exact IH1|]. cbn in He. subst. by constructor.
Qed.

Lemma g_poll_timeout_zero fw : is_int32 fw -> g_poll_timeout fw 0 = 0.
Proof.
  unfold is_int32, INT32_MIN, INT32_MAX. intros H. unfold g_poll_timeout.
  destruct (Z.ltb_spec fw 0); cbn [orb]; [done|].
  rewrite to_uint32_small by (unfold is_uint32, UINT32_MAX; lia).
  destruct (Z.ltb_spec 0 fw); [done|lia].
Qed.

Lemma select_fill_timeout_zero fw : select_fill_timeout fw 0 = 0.
Proof.
  unfold select_fill_timeout.
  pose proof (to_uint32_range fw) as [H _].
  destruct (Z.ltb_spec (to_uint32 fw) 0); [lia|]. by rewrite andb_false_r.
Qed.

(** The wait, entered with the lock held, returns with the lock held. *)
Lemma os_host_wait_locked env timeout w w0 :
  env_query_bounded env w0 -> 0 <= timeout -> iothread_locked w = true ->
  exists ret w' evs,
    os_host_main_loop_wait env timeout w = (Ret ret, w') /\
    w_log w' = w_log w ++ evs /\
    iothread_locked w' = true.
Proof.
  intros Hb Ht Hheld. unfold os_host_main_loop_wait.
  destruct (WIN32 (env_config env)).
  - destruct (win32_wait_run env timeout w) as [Hne Heq].
    destruct (Z.eq_dec (polling_ret env (w_log w) (iothread_locked w)
                                    (first_polling_entry w) 0) 0) as [H0|H0].
    + destruct (proj1 (wp_run _ _ _)
                  (Heq H0 (env_query_bounded_count env w0 _ _ Hb)))
        as (ret & w' & Hrun & (Hl & evs & Hlog & _) & _).
      rewrite after_polling_log, <- !app_assoc in Hlog. eauto 10.
    + eexists _, _, _. split; [by apply Hne|]. split; [apply after_polling_log|].
      by destruct w.
  - destruct (proj1 (wp_run _ _ _)
                (posix_wait_run env timeout w Ht (env_query_bounded_count env w0 _ _ Hb)))
      as (ret & w' & Hrun & nsel & disp & Hlog & Hl).
    rewrite Hheld in Hl. eexists ret, w', _. split; [done|]. split; [exact Hlog|].
    by destruct (_ =? 0).
Qed.

(** The wait with a zero timeout: no wait call has a deadline, and the
    primary variant keeps the lock. *)
Lemma os_host_wait_zero env w w0 :
  env_query_bounded env w0 ->
  exists ret w' evs,
    os_host_main_loop_wait env 0 w = (Ret ret, w') /\
    w_log w' = w_log w ++ evs /\
    Forall (fun t => t = 0) (g_poll_timeouts evs) /\
    Forall (fun tv => tv = Some tv0) (select_tvargs evs) /\
    (WIN32 (env_config env) = false ->
     Forall (fun e => e.1 <> EvMutexUnlockIothread) evs).
Proof.
  intros Hb. unfold os_host_main_loop_wait.
  destruct (WIN32 (env_config env)).
  - destruct (Z.eq_dec (polling_ret env (w_log w) (iothread_locked w)
                                    (first_polling_entry w) 0) 0) as [H0|H0].
    + destruct (proj1 (wp_run _ _ _)
                  (win32_wait_run_settled env 0 w H0
                     (env_query_bounded_count env w0 _ _ Hb)))
        as (ret & w' & Hrun & (Hl & evs & Hlog & Hs) & _).
      rewrite after_polling_log, <- !app_assoc in Hlog.
      destruct (settled_timeouts evs Hs) as [Hg Hsel].
      eexists ret, w', _. split; [done|]. split; [exact Hlog|].
      rewrite !g_poll_timeouts_app, !select_tvargs_app.
      rewrite g_poll_timeouts_polling, select_tvargs_polling, Hg.
      cbn. rewrite g_poll_timeout_zero by apply to_int32_range.
      split; [by repeat constructor|]. split; [done|]. done.
    + destruct (win32_wait_run env 0 w) as [Hne _].
      eexists _, _, _. split; [by apply Hne|]. split; [apply after_polling_log|].
      rewrite g_poll_timeouts_polling, select_tvargs_polling.
      split; [constructor|]. split; [constructor|]. done.
  - destruct (proj1 (wp_run _ _ _)
                (posix_wait_run env 0 w ltac:(lia) (env_query_bounded_count env w0 _ _ Hb)))
      as (ret & w' & Hrun & nsel & disp & Hlog & Hl).
    rewrite select_fill_timeout_zero in Hlog.
    eexists ret, w', _. split; [done|]. split; [exact Hlog|].
    unfold posix_wait_trace. cbn [Z.eqb].
    destruct disp; cbn; (split; [constructor|]); (split; [by repeat constructor|]);
      intros _; repeat constructor; done.
Qed.

Lemma wp_run_ret {A} (m : M A) (Q : World -> Prop) w a :
  wp m (fun r w' => r = a /\ Q w') w -> exists w', m w = (Ret a, w') /\ Q w'.
Proof. intros H. apply wp_run in H as (r & w' & ? & -> & ?). eauto. Qed.

(** One iteration, whatever the build: the calls before the wait, the
    wait, the calls after it. *)
Lemma main_loop_wait_run env nonblocking w :
  let held := iothread_locked w in
  let slirp := CONFIG_SLIRP (env_config env) in
  let t0 := if negb (nonblocking =? 0) then 0 else UINT32_MAX in
  let timeout :=
    if slirp then to_uint32 (env_slirp_update_timeout env (w_log w) t0) else t0 in
  let before :=
    (if slirp then [(EvSlirpUpdateTimeout t0, held); (EvSlirpSelectFill, held)] else [])
    ++ [(EvIohandlerFill, held)] in
  exists w1,
    w_log w1 = w_log w ++ before /\
    iothread_locked w1 = held /\
    forall ret w2 evs,
      os_host_main_loop_wait env timeout w1 = (Ret ret, w2) ->
      w_log w2 = w_log w1 ++ evs ->
      exists w3,
        main_loop_wait env nonblocking w = (Ret ret, w3) /\
        iothread_locked w3 = iothread_locked w2 /\
        w_log w3 = w_log w ++ before ++ evs
                   ++ [(EvIohandlerPoll ret, iothread_locked w2)]
                   ++ (if slirp then [(EvSlirpSelectPoll (ret <? 0), iothread_locked w2)]
                       else [])
                   ++ [(EvRunAllTimers, iothread_locked w2)].
Proof.
  intros held slirp t0 timeout before.
  subst held slirp t0 timeout before. unfold main_loop_wait.
  remember (os_host_main_loop_wait env) as W eqn:HW.
  destruct w as [log0 lk ctx fds pfds npfds prio0 pes wo pend].
  destruct (CONFIG_SLIRP (env_config env)); wsimpl.
  - eexists. split; [|split]; [| |intros ret w2 evs Hwait Hlog2].
    3:{ apply wp_run_ret. cbv zeta. wp_go.
        unfold wp at 1. rewrite Hwait.
        unfold when. wp_go_raw. split; [done|]. split; [by destruct w2|].
        destruct w2; wsimpl. wsimpl in Hlog2. rewrite Hlog2.
        by rewrite <- !app_assoc. }
    + wsimpl. by rewrite <- !app_assoc.
    + done.
  - eexists. split; [|split]; [| |intros ret w2 evs Hwait Hlog2].
    3:{ apply wp_run_ret. cbv zeta. wp_go.
        unfold wp at 1. rewrite Hwait.
        unfold when. wp_go_raw. split; [done|]. split; [by destruct w2|].
        destruct w2; wsimpl. wsimpl in Hlog2. rewrite Hlog2.
        by rewrite <- !app_assoc. }
    + wsimpl. done.
    + done.
Qed.

(** X14.  One iteration of the driver, entered with the lock held, with
    glib only ever giving answers the variant in use can take (a count
    between 0 and the size of [poll_fds]; descriptors that fit an
    [fd_set] in the primary variant; room left for the wait objects of a
    well-formed table in the alternate one), returns with the lock
    held, in either variant and with or without the network stack; the
    hand-over of the wait's result to the device layer (and to the
    network stack when built in) and the timers all run with the lock
    held, and they are the last calls of the iteration. *)
Theorem main_loop_wait_keeps_lock env nonblocking w :
  env_query_bounded env w ->
  iothread_locked w = true ->
  exists ret w' before,
    main_loop_wait env nonblocking w = (Ret ret, w') /\
    iothread_locked w' = true /\
    new_events w w' =
    before
    ++ [(EvIohandlerPoll ret, true)]
    ++ (if CONFIG_SLIRP (env_config env)
        then [(EvSlirpSelectPoll (ret <? 0), true)] else [])
    ++ [(EvRunAllTimers, true)].
Proof.
  intros Hb Hheld.
  destruct (main_loop_wait_run env nonblocking w) as (w1 & Hlog1 & Hl1 & Hk).
  cbv zeta in Hk.
  match type of Hk with
  | forall ret w2 evs, os_host_main_loop_wait env ?t w1 = _ -> _ =>
      assert (0 <= t) as Ht
  end.
  { destruct (CONFIG_SLIRP (env_config env)); [apply to_uint32_range|].
    destruct (negb _); unfold UINT32_MAX; lia. }
  destruct (os_host_wait_locked env _ w1 w Hb Ht) as (ret & w2 & evs & Hwait & Hlog2 & Hl2).
  { by rewrite Hl1. }
  destruct (Hk ret w2 evs Hwait Hlog2) as (w3 & Hmain & Hl3 & Hlog3).
  rewrite Hl2 in Hl3, Hlog3.
  match type of Hlog3 with
  | _ = _ ++ ?b ++ evs ++ _ => exists ret, w3, (b ++ evs)
  end.
  split; [done|]. split; [done|].
  apply new_events_app. rewrite Hlog3, <- !app_assoc. done.
Qed.

Lemma main_loop_wait_keeps_lock_witness :
  exists ret w' before,
    main_loop_wait (env_idle (mkConfig true false)) 0 world_polling = (Ret ret, w') /\
    iothread_locked w' = true /\
    new_events world_polling w' =
    before ++ [(EvIohandlerPoll ret, true)] ++ [] ++ [(EvRunAllTimers, true)].
Proof.
  apply (main_loop_wait_keeps_lock (env_idle (mkConfig true false)) 0 world_polling).
  - intros log prio. unfold win32_query_ok, wait_objects_wf. vm_compute.
    repeat split; congruence.
  - reflexivity.
Defined.

(** X15.  A non-blocking iteration does not block: when the caller asks
    for non-blocking operation (the network stack, if built in, leaving
    a zero timeout at zero, and glib only ever giving answers the
    variant in use can take), every [g_poll] of the iteration is
    called with timeout 0 and every [select] with a zero deadline; in the
    primary variant the lock is never released. *)
Theorem main_loop_wait_nonblocking env nonblocking w :
  nonblocking <> 0 ->
  env_query_bounded env w ->
  (CONFIG_SLIRP (env_config env) = true -> slirp_keeps_zero env) ->
  exists ret w',
    main_loop_wait env nonblocking w = (Ret ret, w') /\
    Forall (fun t => t = 0) (g_poll_timeouts (new_events w w')) /\
    Forall (fun tv => tv = Some tv0) (select_tvargs (new_events w w')) /\
    (WIN32 (env_config env) = false ->
     Forall (fun e => e.1 <> EvMutexUnlockIothread) (new_events w w')).
Proof.
  intros Hnb Hb Hslirp.
  destruct (main_loop_wait_run env nonblocking w) as (w1 & Hlog1 & Hl1 & Hk).
  cbv zeta in Hk.
  apply Z.eqb_neq in Hnb. rewrite Hnb in Hk, Hlog1. cbn [negb] in Hk, Hlog1.
  assert ((if CONFIG_SLIRP (env_config env)
           then to_uint32 (env_slirp_update_timeout env (w_log w) 0) else 0) = 0) as Ht.
  { destruct (CONFIG_SLIRP (env_config env)); [|done]. by apply Hslirp. }
  rewrite Ht in Hk.
  destruct (os_host_wait_zero env w1 w Hb)
    as (ret & w2 & evs & Hwait & Hlog2 & Hg & Hs & Hu).
  destruct (Hk ret w2 evs Hwait Hlog2) as (w3 & Hmain & _ & Hlog3).
  exists ret, w3. split; [done|].
  rewrite (new_events_app _ _ _ Hlog3).
  rewrite !g_poll_timeouts_app, !select_tvargs_app.
  assert (forall (b : bool) (x y : list LogEntry),
             g_poll_timeouts x = [] -> g_poll_timeouts y = [] ->
             g_poll_timeouts (if b then x else y) = []) as Hgif by (by intros []).
  assert (forall (b : bool) (x y : list LogEntry),
             select_tvargs x = [] -> select_tvargs y = [] ->
             select_tvargs (if b then x else y) = []) as Hsif by (by intros []).
  rewrite !Hgif, !Hsif by done.
  cbn [g_poll_timeouts select_tvargs omap list_omap fst app].
  rewrite !app_nil_r.
  split; [done|]. split; [done|].
  intros Hposix. specialize (Hu Hposix).
  rewrite !Forall_app. repeat split; try done;
    destruct (CONFIG_SLIRP (env_config env)); cbn;
    repeat (constructor; [cbn; discriminate|]); constructor.
Qed.

Lemma main_loop_wait_nonblocking_witness :
  exists ret w',
    main_loop_wait (env_idle (mkConfig false true)) 1 world_init = (Ret ret, w') /\
    Forall (fun t => t = 0) (g_poll_timeouts (new_events world_init w')) /\
    Forall (fun tv => tv = Some tv0) (select_tvargs (new_events world_init w')) /\
    (false = false ->
     Forall (fun e => e.1 <> EvMutexUnlockIothread) (new_events world_init w')).
Proof.
  apply (main_loop_wait_nonblocking (env_idle (mkConfig false true)) 1 world_init).
  - discriminate.
  - intros log prio. reflexivity.
  - intros _ log. reflexivity.
Defined.


(** ** Timeout conversion *)



(** ** Start-up *)

Lemma init_main_loop_cases ie w :
  (fst (fst (qemu_init_main_loop ie w)) = Returned 0 /\
   snd (fst (qemu_init_main_loop ie w))
   = set_qemu_aio_context (ie_aio_context_new ie) w /\
   exists before,
     snd (qemu_init_main_loop ie w)
     = before ++ [IeAioContextNew; IeAioGetGSource (ie_aio_context_new ie);
                  IeGSourceAttach (ie_aio_get_g_source ie (ie_aio_context_new ie));
                  IeGSourceUnref (ie_aio_get_g_source ie (ie_aio_context_new ie))])
  \/
  (fst (fst (qemu_init_main_loop ie w)) <> Returned 0 /\
   snd (fst (qemu_init_main_loop ie w)) = w /\
   IeAioContextNew ∉ snd (qemu_init_main_loop ie w)).
Proof.
  unfold qemu_init_main_loop.
  destruct (to_int32 (ie_init_timer_alarm ie) <? 0).
  - right. cbn. split; [done|]. split; [done|].
    rewrite !not_elem_of_cons. repeat split; try done. apply not_elem_of_nil.
  - destruct (Z.eqb_spec (fst (qemu_signal_init ie)) 0) as [H0|H0]; cbn [negb].
    + left. cbn [fst snd]. split; [done|]. split; [done|].
      eexists. rewrite app_assoc. reflexivity.
    + right. cbn [fst snd]. split; [congruence|]. split; [done|].
      unfold qemu_signal_init.
      destruct (WIN32 (ie_config ie)); [|destruct (_ =? -1)]; cbn;
        rewrite !not_elem_of_cons; repeat split; try done; apply not_elem_of_nil.
Qed.

(** X17.  [qemu_init_main_loop] creates the async context exactly when it
    returns 0.  If it ends in [exit] or returns an error, the program
    state is untouched and [aio_context_new] was never called; if it
    returns 0, [qemu_aio_context] holds the new context, whose source was
    attached and then released, and nothing else changed. *)
Theorem qemu_init_main_loop_context ie w :
  (fst (fst (qemu_init_main_loop ie w)) = Returned 0 /\
   snd (fst (qemu_init_main_loop ie w))
   = set_qemu_aio_context (ie_aio_context_new ie) w /\
   exists before,
     snd (qemu_init_main_loop ie w)
     = before ++ [IeAioContextNew; IeAioGetGSource (ie_aio_context_new ie);
                  IeGSourceAttach (ie_aio_get_g_source ie (ie_aio_context_new ie));
                  IeGSourceUnref (ie_aio_get_g_source ie (ie_aio_context_new ie))])
  \/
  (fst (fst (qemu_init_main_loop ie w)) <> Returned 0 /\
   snd (fst (qemu_init_main_loop ie w)) = w /\
   IeAioContextNew ∉ snd (qemu_init_main_loop ie w)).
Proof. apply init_main_loop_cases. Qed.

(** X18.  Start-up followed by a notification, from a state whose context
    is still null, and given that a context once created is non-null:
    after a start-up that returned 0, [qemu_notify_event] calls
    [aio_notify] once, on the context just created; after a start-up that
    ended in [exit] or in an error, it still does nothing. *)
Theorem notify_after_init ie w :
  qemu_aio_context w = 0 ->
  ie_aio_context_new ie <> 0 ->
  qemu_notify_event (snd (fst (qemu_init_main_loop ie w)))
  = (Ret tt,
     match fst (fst (qemu_init_main_loop ie w)) with
     | Returned 0 =>
         set_log (w_log w ++ [(EvAioNotify (ie_aio_context_new ie), iothread_locked w)])
                 (snd (fst (qemu_init_main_loop ie w)))
     | _ => w
     end).
Proof.
  intros Hnull Hctx.
  destruct (init_main_loop_cases ie w) as [(Hr & Hw & _)|(Hr & Hw & _)].
  - rewrite Hr, Hw. unfold qemu_notify_event, mbind, M_bind, get, aio_notify, emit, modify.
    destruct w as [log0 lk ctx fds pfds npfds prio0 pes wo pend]. cbn.
    apply Z.eqb_neq in Hctx. by rewrite Hctx.
  - rewrite Hw.
    unfold qemu_notify_event, mbind, M_bind, get. rewrite Hnull. cbn.
    destruct (fst (fst (qemu_init_main_loop ie w))) as [[| |]|]; try done.
Qed.

Lemma notify_after_init_witness :
  qemu_notify_event (snd (fst (qemu_init_main_loop init_env_ok world_init)))
  = (Ret tt,
     set_log [(EvAioNotify 4096, true)] (set_qemu_aio_context 4096 world_init)) /\
  qemu_notify_event (snd (fst (qemu_init_main_loop init_env_no_signalfd world_init)))
  = (Ret tt, world_init) /\
  qemu_notify_event (snd (fst (qemu_init_main_loop init_env_no_alarm world_init)))
  = (Ret tt, world_init).
Proof.
  split; [|split].
  - apply (notify_after_init init_env_ok world_init); [reflexivity|discriminate].
  - apply (notify_after_init init_env_no_signalfd world_init);
      [reflexivity|discriminate].
  - apply (notify_after_init init_env_no_alarm world_init);
      [reflexivity|discriminate].
Defined.

(** X19.  The signal sets of [qemu_signal_init] on a POSIX host, when
    [SIG_IPI] is none of SIGIO, SIGALRM and SIGBUS: the first call blocks
    exactly these four signals on the calling thread; the second asks for
    a descriptor that accepts exactly SIGIO, SIGALRM and SIGBUS, so that
    [SIG_IPI] stays blocked but is never taken from the descriptor.  This
    holds whether or not the descriptor can then be created. *)
Theorem qemu_signal_init_sets ie :
  WIN32 (ie_config ie) = false ->
  SIG_IPI ie <> SIGIO -> SIG_IPI ie <> SIGALRM -> SIG_IPI ie <> SIGBUS ->
  exists blocked watched rest,
    snd (qemu_signal_init ie)
    = IePthreadSigmaskBlock blocked :: IeSignalfd watched :: rest /\
    (forall s, sigismember blocked s = true <->
               s = SIG_IPI ie \/ s = SIGIO \/ s = SIGALRM \/ s = SIGBUS) /\
    (forall s, sigismember watched s = true <->
               s = SIGIO \/ s = SIGALRM \/ s = SIGBUS).
Proof.
  intros Hposix H1 H2 H3. unfold qemu_signal_init. rewrite Hposix.
  assert (forall s, s ∈ blocked_signals ie <->
                    s = SIG_IPI ie \/ s = SIGIO \/ s = SIGALRM \/ s = SIGBUS) as Hb.
  { intros s. unfold blocked_signals, sigaddset, sigemptyset.
    rewrite !elem_of_cons, elem_of_nil. tauto. }
  assert (forall s, s ∈ sigdelset (blocked_signals ie) (SIG_IPI ie) <->
                    s = SIGIO \/ s = SIGALRM \/ s = SIGBUS) as Hw.
  { intros s. unfold sigdelset. rewrite list_elem_of_filter, Hb.
    split; [tauto|]. intros [->| [->| ->]]; split; auto. }
  destruct (_ =? -1); cbn [snd app];
    eexists _, _, _; (split; [reflexivity|]);
    split; intros s; unfold sigismember; rewrite bool_decide_eq_true; auto.
Qed.

Lemma qemu_signal_init_sets_witness :
  exists blocked watched rest,
    snd (qemu_signal_init init_env_ok)
    = IePthreadSigmaskBlock blocked :: IeSignalfd watched :: rest /\
    (forall s, sigismember blocked s = true <->
               s = 10 \/ s = SIGIO \/ s = SIGALRM \/ s = SIGBUS) /\
    (forall s, sigismember watched s = true <->
               s = SIGIO \/ s = SIGALRM \/ s = SIGBUS).
Proof.
  apply (qemu_signal_init_sets init_env_ok); [reflexivity|discriminate..].
Defined.

(** X20.  The status of [qemu_signal_init] on a POSIX host, [errno]
    being a positive [int].  Either it returns 0, and then the descriptor
    it obtained was made non-blocking and, after that, registered with
    [sigfd_handler] as read handler and with the descriptor itself as
    opaque value; or it returns the negative value -[errno], and then it
    printed a diagnostic and registered nothing. *)
Theorem qemu_signal_init_status ie :
  WIN32 (ie_config ie) = false ->
  0 < ie_errno ie <= INT32_MAX ->
  (fst (qemu_signal_init ie) = 0 /\
   exists before fd,
     fd <> -1 /\
     snd (qemu_signal_init ie)
     = before ++ [IeFcntlSetflNonblock fd; IeSetFdHandler2Sigfd fd fd])
  \/
  (fst (qemu_signal_init ie) = - ie_errno ie /\
   fst (qemu_signal_init ie) < 0 /\
   (exists before,
      snd (qemu_signal_init ie) = before ++ [IeFprintf "failed to create signalfd\n"]) /\
   forall fd o, IeSetFdHandler2Sigfd fd o ∉ snd (qemu_signal_init ie)).
Proof.
  intros Hposix Herr. unfold qemu_signal_init. rewrite Hposix. cbv zeta.
  destruct (Z.eqb_spec (to_int32 (ie_signalfd ie
                          (sigdelset (blocked_signals ie) (SIG_IPI ie)))) (-1))
    as [Hfd|Hfd]; cbn [fst snd].
  - right.
    assert (to_int32 (- ie_errno ie) = - ie_errno ie) as ->.
    { unfold to_int32, INT32_MAX in *.
      replace ((- ie_errno ie) mod 4294967296) with (4294967296 - ie_errno ie).
      - destruct (Z.ltb_spec (4294967296 - ie_errno ie) 2147483648); lia.
      - apply Z.mod_unique with (q := -1); lia. }
    split; [done|]. split; [lia|]. split.
    + eexists [_; _]. reflexivity.
    + intros fd o. cbn. rewrite !not_elem_of_cons.
      repeat split; try done. apply not_elem_of_nil.
  - left. split; [done|]. eexists [_; _], _. split; [exact Hfd|]. reflexivity.
Qed.

Lemma qemu_signal_init_status_witness :
  (fst (qemu_signal_init init_env_no_signalfd) = 0 /\
   exists before fd,
     fd <> -1 /\
     snd (qemu_signal_init init_env_no_signalfd)
     = before ++ [IeFcntlSetflNonblock fd; IeSetFdHandler2Sigfd fd fd])
  \/
  (fst (qemu_signal_init init_env_no_signalfd) = - 24 /\
   fst (qemu_signal_init init_env_no_signalfd) < 0 /\
   (exists before,
      snd (qemu_signal_init init_env_no_signalfd)
      = before ++ [IeFprintf "failed to create signalfd\n"]) /\
   forall fd o, IeSetFdHandler2Sigfd fd o ∉ snd (qemu_signal_init init_env_no_signalfd)).
Proof.
  apply (qemu_signal_init_status init_env_no_signalfd).
  - reflexivity.
  - unfold INT32_MAX. cbn. lia.
Defined.
